(** * helpers/dbmanager.js: the Mongo data-access layer of ArbeitBot

    A shallow embedding of the functions exported by [helpers/dbmanager.js]
    and the properties of them that the specification states.

    The module is written in continuation-passing style: every exported
    function takes a [callback] and talks to the store through mongoose.  The
    embedding keeps that shape.  A computation is a function of the world
    (store contents, pending store faults, identifier supply, trace of store
    calls) and ends in one of three ways: the callback ran, no callback was
    ever called, or an exception escaped from an asynchronous handler. *)

From Stdlib Require Import ZArith String Ascii.
From stdpp Require Import base tactics option list strings sorting.

Local Open Scope Z_scope.
Local Open Scope string_scope.

(** ** Documents *)

(** A Mongo ObjectId, kept as its hexadecimal rendering: the source compares
    identifiers only after converting them to strings. *)
Definition ObjectId := string.

(** [''+x] for an ObjectId [x]. *)
Definition str (x : ObjectId) : string := x.

(** Modelled from the spec: the mongoose schemas [user], [category] and [job]
    are registered by model files that this module only looks up by name; the
    fields are those of the data model (section 3 of the specification).  A
    referencing field holds ObjectIds as stored and documents once populated,
    hence the type parameters. *)
Record User (C J : Type) := mkUser {
  user_oid : ObjectId;
  id : Z;
  name : string;
  busy : bool;
  bio : option string;
  hourly_rate : option Z;
  categories : list C;
  jobs : list J;
  job_draft : option J
}.
Arguments mkUser {C J}.
Arguments user_oid {C J}.
Arguments id {C J}.
Arguments name {C J}.
Arguments busy {C J}.
Arguments bio {C J}.
Arguments hourly_rate {C J}.
Arguments categories {C J}.
Arguments jobs {C J}.
Arguments job_draft {C J}.

Record Category (F : Type) := mkCategory {
  category_oid : ObjectId;
  title : string;
  freelancers : list F
}.
Arguments mkCategory {F}.
Arguments category_oid {F}.
Arguments title {F}.
Arguments freelancers {F}.

Record Job := mkJob {
  job_oid : ObjectId;
  category : ObjectId;
  notInterestedCandidates : list ObjectId
}.

(** The plain object handed to [new User(...)]: every field but [_id]. *)
Record Candidate := mkCandidate {
  c_id : Z;
  c_name : string;
  c_busy : bool;
  c_bio : option string;
  c_hourly_rate : option Z;
  c_categories : list ObjectId;
  c_jobs : list ObjectId;
  c_job_draft : option ObjectId
}.

(** Every document carries the store's own identifier, [_id]. *)
Class Document (D : Type) := _id : D -> ObjectId.
#[export] Instance User_Document {C J} : Document (User C J) := user_oid.
#[export] Instance Category_Document {F} : Document (Category F) := category_oid.
#[export] Instance Job_Document : Document Job := job_oid.

(** Documents as stored (references only). *)
Definition UserRec := User ObjectId ObjectId.
Definition CategoryRec := Category ObjectId.

(** A user after [.populate(['categories', 'jobs', 'job_draft'])]. *)
Definition UserDoc := User CategoryRec Job.

(** A category after [.populate({path: 'freelancers', ...})]. *)
Definition CategoryDoc := Category UserRec.

(** ** The store and the world around one operation *)

Record Store := mkStore {
  db_users : list UserRec;
  db_categories : list CategoryRec;
  db_jobs : list Job
}.

Inductive error :=
| StoreFailure
| DuplicateKey (k : ObjectId).

Inductive exn :=
| TypeError
| Rethrown (e : error).

(** One entry per call that reaches mongoose (or the console), in program
    order. *)
Inductive event :=
| User_findOne
| User_find (job : Job)
| User_save (doc : UserDoc)
| User_insert (doc : UserRec)
| Category_findById (cid : ObjectId)
| Category_findOne (t : string)
| Category_find
| Category_save (doc : CategoryRec)
| Job_findById (jid : ObjectId)
| console_log_user (c : Candidate)
| console_log_error (e : exn).

(** [faults]: for each coming store round trip, whether the store answers
    with an error ([true]); when the list is used up every round trip
    succeeds.  [new_oid]/[oid_count]: the identifiers the driver hands to
    newly constructed documents.  [trace]: the calls made so far, oldest
    first. *)
Record World := mkWorld {
  store : Store;
  faults : list bool;
  new_oid : nat -> ObjectId;
  oid_count : nat;
  trace : list event
}.

Inductive completion (R : Type) :=
| Returned (r : R)
| NeverCalled
| Thrown (e : exn).
Arguments Returned {R}.
Arguments NeverCalled {R}.
Arguments Thrown {R}.

(** State passing for the synchronous steps ... *)
Definition IO (A : Type) := World -> A * World.
(** ... and the end of an asynchronous chain whose callback answers in [R]. *)
Definition Async (R : Type) := World -> completion R * World.

Definition ret {A} (a : A) : IO A := fun w => (a, w).
Definition bind {A B} (m : IO A) (k : A -> IO B) : IO B :=
  fun w => let '(a, w') := m w in k a w'.

Declare Scope io_scope.
Delimit Scope io_scope with io.
Notation "x <- m ;; k" := (bind m (fun x => k))
  (at level 100, m at next level, right associativity) : io_scope.
Notation "m ;;; k" := (bind m (fun _ => k))
  (at level 100, right associativity) : io_scope.
Local Open Scope io_scope.

Definition emit (e : event) : IO unit :=
  fun w => (tt, mkWorld (store w) (faults w) (new_oid w) (oid_count w) (trace w ++ [e])).

(** Whether the next round trip fails. *)
Definition fault : IO bool :=
  fun w => match faults w with
           | [] => (false, w)
           | f :: fs => (f, mkWorld (store w) fs (new_oid w) (oid_count w) (trace w))
           end.

Definition get_store : IO Store := fun w => (store w, w).
Definition put_store (s : Store) : IO unit :=
  fun w => (tt, mkWorld s (faults w) (new_oid w) (oid_count w) (trace w)).

Definition fresh_oid : IO ObjectId :=
  fun w => (new_oid w (oid_count w),
            mkWorld (store w) (faults w) (new_oid w) (S (oid_count w)) (trace w)).

(** A store call: record it, then either the store's error or the answer
    computed by [op]. *)
Definition roundtrip {A} (e : event) (op : Store -> error + (A * Store)) : IO (error + A) :=
  emit e ;;;
  failed <- fault ;;
  if (failed : bool) then ret (inl StoreFailure)
  else
    s <- get_store ;;
    match op s with
    | inl err => ret (inl err)
    | inr (a, s') => put_store s' ;;; ret (inr a)
    end.

(** ** Queries of the store *)

Definition oid_eqb (a b : ObjectId) : bool := String.eqb a b.

(** [findOne]/[findById]: the first document, in store order, that matches. *)
Definition find_by_id {D} `{Document D} (x : ObjectId) (l : list D) : option D :=
  List.find (fun d => oid_eqb (_id d) x) l.

(** Replacing the stored document that has the identifier of [d]. *)
Fixpoint update_by_id {D} `{Document D} (d : D) (l : list D) : list D :=
  match l with
  | [] => []
  | x :: l' => if oid_eqb (_id x) (_id d) then d :: l' else x :: update_by_id d l'
  end.

(** Population of a reference array: the referenced documents in the order of
    the references; references that resolve to nothing are left out. *)
Definition resolve {D} `{Document D} (coll : list D) (refs : list ObjectId) : list D :=
  omap (fun r => find_by_id r coll) refs.

Definition populate_user (s : Store) (u : UserRec) : UserDoc :=
  mkUser (user_oid u) (id u) (name u) (busy u) (bio u) (hourly_rate u)
         (resolve (db_categories s) (categories u))
         (resolve (db_jobs s) (jobs u))
         (r ← job_draft u; find_by_id r (db_jobs s)).

(** What a save writes for a populated user: the references again. *)
Definition depopulate_user (u : UserDoc) : UserRec :=
  mkUser (user_oid u) (id u) (name u) (busy u) (bio u) (hourly_rate u)
         (_id <$> categories u) (_id <$> jobs u) (_id <$> job_draft u).

(** ** The mongoose calls the module makes *)

(** [User.findOne(query).populate(['categories', 'jobs', 'job_draft']).exec]. *)
Definition User_findOne_populate (query : UserRec -> bool) : IO (error + option UserDoc) :=
  roundtrip User_findOne
    (fun s => inr (populate_user s <$> List.find query (db_users s), s)).

(** [doc.save] on a loaded user: the stored document with the same [_id] is
    replaced. *)
Definition save_user (doc : UserDoc) : IO (error + UserDoc) :=
  roundtrip (User_save doc)
    (fun s => inr (doc, mkStore (update_by_id (depopulate_user doc) (db_users s))
                                (db_categories s) (db_jobs s))).

(** [doc.save] on a user made by [new User(...)]: an insert, refused when the
    identifier is taken. *)
Definition insert_user (doc : UserRec) : IO (error + UserRec) :=
  roundtrip (User_insert doc)
    (fun s => match find_by_id (_id doc) (db_users s) with
              | Some _ => inl (DuplicateKey (_id doc))
              | None => inr (doc, mkStore (db_users s ++ [doc]) (db_categories s) (db_jobs s))
              end).

(** [Category.findById(categoryId, cb)]: no population. *)
Definition Category_findById_exec (categoryId : ObjectId) : IO (error + option CategoryRec) :=
  roundtrip (Category_findById categoryId)
    (fun s => inr (find_by_id categoryId (db_categories s), s)).

Definition save_category (doc : CategoryRec) : IO (error + CategoryRec) :=
  roundtrip (Category_save doc)
    (fun s => inr (doc, mkStore (db_users s) (update_by_id doc (db_categories s)) (db_jobs s))).

Definition Job_findById_exec (jid : ObjectId) : IO (error + option Job) :=
  roundtrip (Job_findById jid) (fun s => inr (find_by_id jid (db_jobs s), s)).

Definition new_User (oid : ObjectId) (c : Candidate) : UserRec :=
  mkUser oid (c_id c) (c_name c) (c_busy c) (c_bio c) (c_hourly_rate c)
         (c_categories c) (c_jobs c) (c_job_draft c).

(** ** User *)

(** [{ id: chatId }] *)
Definition by_chat_id (chatId : Z) : UserRec -> bool := fun u => Z.eqb (id u) chatId.

(** The promise of [findUser]: [fullfill] receives the user, or null; an
    error of the store is thrown from inside the exec callback, so the
    promise stays pending and the exception escapes. *)
Definition findUser {R} (query : UserRec -> bool) (fullfill : option UserDoc -> Async R)
  : Async R :=
  r <- User_findOne_populate query ;;
  match r with
  | inl err => ret (Thrown (Rethrown err))
  | inr user => fullfill user
  end.

(** The document that [addUser] hands to its callback is either one read
    back from the store, populated, or the one just constructed. *)
Inductive UserDocument :=
| Populated (u : UserDoc)
| Plain (u : UserRec).

(** The rejection handler [.catch(err => console.log(err))] is reached only
    by an exception of the callback itself, in the branch that calls it
    directly; the callbacks considered here raise none. *)
Definition addUser {R} (user : Candidate)
    (callback : option error -> option UserDocument -> Async R) : Async R :=
  emit (console_log_user user) ;;;
  findUser (by_chat_id (c_id user)) (fun dbuserObject =>
    match dbuserObject with
    | Some dbuserObject => callback None (Some (Populated dbuserObject))
    | None =>
        oid <- fresh_oid ;;
        let userObject := new_User oid user in
        r <- insert_user userObject ;;
        match r with
        | inl err => callback (Some err) None
        | inr saved => callback None (Some (Plain saved))
        end
    end).

Definition set_busy {C J} (b : bool) (u : User C J) : User C J :=
  mkUser (user_oid u) (id u) (name u) b (bio u) (hourly_rate u)
         (categories u) (jobs u) (job_draft u).

(** With no user, [user.busy] is a TypeError inside the [then] handler; the
    chain has no rejection handler and the callback is not reached. *)
Definition toggleUserAvailability {R} (chatId : Z)
    (callback : option error -> option UserDoc -> Async R) : Async R :=
  findUser (by_chat_id chatId) (fun user =>
    match user with
    | None => ret (Thrown TypeError)
    | Some user =>
        let user := set_busy (negb (busy user)) user in
        r <- save_user user ;;
        match r with
        | inl err => callback (Some err) None
        | inr saved => callback None (Some saved)
        end
    end).

(** The two scanning loops: the index of the first element that passes the
    test, counting from [i], or -1. *)
Fixpoint scan {A} (test : A -> bool) (l : list A) (i : Z) : Z :=
  match l with
  | [] => -1
  | x :: l' => if test x then i else scan test l' (i + 1)
  end.

(** [array.splice(index, 1)] for an index in range. *)
Definition splice1 {A} (index : Z) (l : list A) : list A := delete (Z.to_nat index) l.

Definition set_categories {C C' J} (cs : list C') (u : User C J) : User C' J :=
  mkUser (user_oid u) (id u) (name u) (busy u) (bio u) (hourly_rate u)
         cs (jobs u) (job_draft u).

Definition set_freelancers {F F'} (fs : list F') (c : Category F) : Category F' :=
  mkCategory (category_oid c) (title c) fs.

(** The first half of [findCategoryCallback]: the changes made to the two
    loaded documents, and [index].  [push] casts what it is given: the user's
    populated array receives the category as it is at that moment, the
    category's array of references the user's [_id]. *)
Definition toggle_membership (category : CategoryRec) (user : UserDoc)
  : UserDoc * CategoryRec * Z :=
  let index :=
    scan (fun innerCategory => String.eqb (str (_id innerCategory)) (str (_id category)))
         (categories user) 0 in
  if (index <? 0)%Z then
    (set_categories (categories user ++ [category]) user,
     set_freelancers (freelancers category ++ [_id user]) category,
     index)
  else
    let user' := set_categories (splice1 index (categories user)) user in
    let ind :=
      scan (fun innerFreelancer => String.eqb (str innerFreelancer) (str (_id user')))
           (freelancers category) 0 in
    (user',
     if (ind >? -1)%Z then set_freelancers (splice1 ind (freelancers category)) category
     else category,
     index).

Definition findCategoryCallback {R} (category : CategoryRec) (user : option UserDoc)
    (callback : option error -> option UserDoc -> bool -> Async R) : Async R :=
  match user with
  | None => ret (Thrown TypeError)
  | Some user =>
      let '(user, category, index) := toggle_membership category user in
      saved_user <- save_user user ;;
      saved_category <- save_category category ;;
      match saved_category with
      | inl err => ret NeverCalled
      | inr _ =>
          callback None (match saved_user with inl _ => None | inr u => Some u end)
                   (index <? 0)%Z
      end
  end.

Definition toggleCategoryForUser {R} (chatId : Z) (categoryId : ObjectId)
    (callback : option error -> option UserDoc -> bool -> Async R) : Async R :=
  findUser (by_chat_id chatId) (fun user =>
    r <- Category_findById_exec categoryId ;;
    match r with
    | inl err => ret NeverCalled
    | inr (Some category) => findCategoryCallback category user callback
    | inr None => ret NeverCalled
    end).

(** ** Query documents

    The conditions that the module's query documents are built from, each as
    the test it makes on a stored user. *)

(** [{ $and: [...] }] *)
Definition q_and {D} (conds : list (D -> bool)) : D -> bool :=
  fun d => forallb (fun cond => cond d) conds.
(** [{ busy: b }] *)
Definition q_busy (b : bool) : UserRec -> bool := fun u => Bool.eqb (busy u) b.
(** [{ bio: { $exists: true } }] *)
Definition q_bio_exists : UserRec -> bool :=
  fun u => match bio u with Some _ => true | None => false end.
(** [{ hourly_rate: { $exists: true } }] *)
Definition q_hourly_rate_exists : UserRec -> bool :=
  fun u => match hourly_rate u with Some _ => true | None => false end.

Definition oid_in (x : ObjectId) (l : list ObjectId) : bool := existsb (oid_eqb x) l.

(** [{ categories: c }]: the array field holds [c]. *)
Definition q_categories (c : ObjectId) : UserRec -> bool := fun u => oid_in c (categories u).
(** [{ _id: { $nin: ids } }] *)
Definition q_id_nin (ids : list ObjectId) : UserRec -> bool := fun u => negb (oid_in (_id u) ids).

(** [sort: { 'name': -1 }] and [.sort('title')]: the order of strings by
    character codes, descending and ascending. *)
Definition name_desc (u v : UserRec) : Prop := String.leb (name v) (name u) = true.
Definition title_asc {F} (c d : Category F) : Prop := String.leb (title c) (title d) = true.

#[export] Instance name_desc_dec : RelDecision name_desc.
Proof. intros u v. unfold name_desc. apply _. Defined.
#[export] Instance title_asc_dec {F} : RelDecision (@title_asc F).
Proof. intros u v. unfold title_asc. apply _. Defined.

(** [.populate({ path: 'freelancers', match: m, options: { sort: ... } })]:
    the users whose [_id] the category references and that pass [m], as the
    store returns them for the given sort. *)
Definition populate_freelancers (m : UserRec -> bool) (order : relation UserRec)
    `{!RelDecision order} (s : Store) (c : CategoryRec) : CategoryDoc :=
  set_freelancers
    (merge_sort order
       (List.filter (fun u => oid_in (_id u) (freelancers c) && m u) (db_users s)))
    c.

(** ** Categories *)

Definition getCategory {R} (categoryTitle : string)
    (callback : option error -> option CategoryDoc -> Async R) : Async R :=
  r <- roundtrip (Category_findOne categoryTitle)
         (fun s =>
            inr (populate_freelancers
                   (q_and [q_busy false; q_bio_exists; q_hourly_rate_exists])
                   name_desc s
                 <$> List.find (fun c => String.eqb (title c) categoryTitle)
                               (db_categories s), s)) ;;
  match r with
  | inl err => callback (Some err) None
  | inr c => callback None c
  end.

Definition getCategories {R}
    (callback : option error -> option (list CategoryDoc) -> Async R) : Async R :=
  r <- roundtrip Category_find
         (fun s =>
            inr (populate_freelancers
                   (q_and [q_busy false; q_bio_exists; q_hourly_rate_exists])
                   name_desc s
                 <$> merge_sort title_asc (db_categories s), s)) ;;
  match r with
  | inl err => callback (Some err) None
  | inr cs => callback None (Some cs)
  end.

(** ** Jobs *)

(** [findJobById(id, callback)] with the [populate] argument left out. *)
Definition findJobById {R} (jid : ObjectId) (callback : option Job -> Async R) : Async R :=
  r <- Job_findById_exec jid ;;
  match r with
  | inl err => ret NeverCalled
  | inr job => callback job
  end.

Definition freelancersForJob {R} (job : Job) (callback : list UserRec -> Async R) : Async R :=
  r <- roundtrip (User_find job)
         (fun s =>
            inr (List.filter
                   (q_and [q_categories (category job);
                           q_busy false;
                           q_bio_exists;
                           q_hourly_rate_exists;
                           q_id_nin (notInterestedCandidates job)])
                   (db_users s), s)) ;;
  match r with
  | inl err => emit (console_log_error (Rethrown err)) ;;; ret NeverCalled
  | inr users => callback users
  end.

Definition freelancersForJobId {R} (jobId : ObjectId)
    (callback : option (list UserRec) -> Async R) : Async R :=
  findJobById jobId (fun job =>
    match job with
    | Some job => freelancersForJob job (fun users => callback (Some users))
    | None => callback None
    end).

(** ** What the specification calls things *)

(** Section 4.2: a user qualifies as an available freelancer. *)
Definition available (u : UserRec) : Prop :=
  busy u = false ∧ is_Some (bio u) ∧ is_Some (hourly_rate u).

(** Callbacks that only record their arguments. *)
Definition report1 {A} (a : A) : Async A := ret (Returned a).
Definition report2 {A B} (a : A) (b : B) : Async (A * B) := ret (Returned (a, b)).
Definition report3 {A B C} (a : A) (b : B) (c : C) : Async (A * B * C) :=
  ret (Returned (a, b, c)).

(** The user that [{ id: chatId }] selects and the category with a given
    [_id], as stored. *)
Definition the_user (chatId : Z) (s : Store) : option UserRec :=
  List.find (by_chat_id chatId) (db_users s).
Definition the_category (cid : ObjectId) (s : Store) : option CategoryRec :=
  find_by_id cid (db_categories s).

(** How often an identifier occurs in a reference array. *)
Definition occ (x : ObjectId) (l : list ObjectId) : nat :=
  length (List.filter (oid_eqb x) l).

(** The [n]-th coming round trip succeeds. *)
Definition succeeds (n : nat) (w : World) : Prop := nth n (faults w) false = false.

(** ** A small database for examples *)

Definition cat_web : CategoryRec := mkCategory "c1" "Web" ["u1"; "u2"; "u3"; "u4"].
Definition cat_art : CategoryRec := mkCategory "c2" "Art" [].

Definition amy : UserRec :=
  mkUser "u1" 101 "Amy" false (Some "frontend") (Some 20) ["c1"] [] None.
Definition ben : UserRec :=
  mkUser "u2" 102 "Ben" true (Some "backend") (Some 30) ["c1"] [] None.
Definition cid : UserRec :=
  mkUser "u3" 103 "Cid" false None (Some 25) ["c1"] [] None.
Definition dan : UserRec :=
  mkUser "u4" 104 "Dan" false (Some "design") (Some 15) ["c1"] [] None.

Definition job1 : Job := mkJob "j1" "c1" ["u4"].

Definition store0 : Store := mkStore [amy; ben; cid; dan] [cat_web; cat_art] [job1].

(** An identifier supply: "n", "n0", "n00", ... *)
Fixpoint tally (n : nat) : string :=
  match n with
  | O => "n"
  | S n' => tally n' +:+ "0"
  end.

Definition world_of (s : Store) (fs : list bool) : World := mkWorld s fs tally 0 [].

(** ** Auxiliary notions for the statements *)

(** The world after a round trip [e] that leaves the store [s']. *)
Definition advance (e : event) (s' : Store) (w : World) : World :=
  mkWorld s' (tail (faults w)) (new_oid w) (oid_count w) (trace w ++ [e]).

Definition with_users (us : list UserRec) (s : Store) : Store :=
  mkStore us (db_categories s) (db_jobs s).
Definition with_categories (cs : list CategoryRec) (s : Store) : Store :=
  mkStore (db_users s) cs (db_jobs s).

(** A list without its first entry that passes [test]. *)
Fixpoint remove_first {A} (test : A -> bool) (l : list A) : list A :=
  match l with
  | [] => []
  | x :: l' => if test x then l' else x :: remove_first test l'
  end.

(** The references of [refs] that resolve in [coll]. *)
Definition live {D} `{Document D} (coll : list D) (refs : list ObjectId) : list ObjectId :=
  List.filter (fun r => bool_decide (is_Some (find_by_id r coll))) refs.

(** The two sides of the membership of the user selected by [chatId] in the
    category [cid0]: both present, both absent. *)
Definition linked (chatId : Z) (cid0 : ObjectId) (s : Store) : Prop :=
  exists u c, the_user chatId s = Some u /\ the_category cid0 s = Some c
              /\ In cid0 (categories u) /\ In (_id u) (freelancers c).
Definition unlinked (chatId : Z) (cid0 : ObjectId) (s : Store) : Prop :=
  exists u c, the_user chatId s = Some u /\ the_category cid0 s = Some c
              /\ ~ In cid0 (categories u) /\ ~ In (_id u) (freelancers c).

(** Amy lists the category Art, which does not list her. *)
Definition amy_art : UserRec :=
  mkUser "u1" 101 "Amy" false (Some "frontend") (Some 20) ["c1"; "c2"] [] None.
Definition store_one_sided : Store := mkStore [amy_art; ben; cid; dan] [cat_web; cat_art] [job1].

(** Section 4.2 and 4.4, in the specification's words: [l] lists exactly the
    stored users that the category references and that are available,
    ordered by name, descending. *)
Definition available_listing (s : Store) (c : CategoryRec) (l : list UserRec) : Prop :=
  Sorted name_desc l
  /\ forall u, In u l <-> In u (db_users s) /\ In (_id u) (freelancers c) /\ available u.

(** A populated category is the view of a stored one. *)
Definition category_view (s : Store) (cd : CategoryDoc) (c : CategoryRec) : Prop :=
  _id cd = _id c /\ title cd = title c /\ available_listing s c (freelancers cd).

(** The world after a line on the console. *)
Definition logged (e : event) (w : World) : World := snd (emit e w).

(** The world after an identifier has been handed out. *)
Definition oid_taken (w : World) : World := snd (fresh_oid w).

Definition eve : Candidate := mkCandidate 105 "Eve" false None None [] [] None.
Definition eve_again : Candidate :=
  mkCandidate 105 "Eve E." true (Some "ops") (Some 40) ["c1"] [] None.

(** A job in the category Web that excludes nobody. *)
Definition job2 : Job := mkJob "j2" "c1" [].

(** ** Further functions of the module *)

(** [{ _id: x }]: [User.findById(x)] is [User.findOne({ _id: x })]. *)
Definition by_oid (x : ObjectId) : UserRec -> bool := fun u => oid_eqb (_id u) x.

(** [findUserById(id, callback)]: an error of the store ends in the empty
    [if (err)] branch. *)
Definition findUserById {R} (oid : ObjectId) (callback : option UserDoc -> Async R)
  : Async R :=
  r <- User_findOne_populate (by_oid oid) ;;
  match r with
  | inl err => ret NeverCalled
  | inr user => callback user
  end.

(** *** Reviews *)

(** Modelled from the spec: the mongoose schema [review] is registered by a
    model file that this module only looks up by name; section 3 of the
    specification gives a review free-form fields plus references to a user
    and a job. *)
Record Review := mkReview {
  review_oid : ObjectId;
  review_user : option ObjectId;
  review_job : option ObjectId;
  review_fields : list (string * string)
}.
#[export] Instance Review_Document : Document Review := review_oid.

(** The plain object handed to [new Review(...)]. *)
Record ReviewTemplate := mkReviewTemplate {
  rt_user : option ObjectId;
  rt_job : option ObjectId;
  rt_fields : list (string * string)
}.

Definition new_Review (oid : ObjectId) (t : ReviewTemplate) : Review :=
  mkReview oid (rt_user t) (rt_job t) (rt_fields t).

(** The collection of reviews lives beside the three collections above; the
    review functions touch nothing else.  Their round trips draw on the same
    fault schedule and identifier supply; they are not entered in the
    trace. *)
Record RWorld := mkRWorld {
  base : World;
  db_reviews : list Review
}.

Definition RAsync (R : Type) := RWorld -> completion R * RWorld.

(** A step of the base world, run beside the reviews. *)
Definition lift {A} (m : IO A) : RWorld -> A * RWorld :=
  fun rw => let '(a, w) := m (base rw) in (a, mkRWorld w (db_reviews rw)).

(** [findReviewById(id, callback)] with the [populate] argument left out. *)
Definition findReviewById {R} (oid : ObjectId) (callback : option Review -> RAsync R)
  : RAsync R :=
  fun rw =>
    let '(failed, rw1) := lift fault rw in
    if (failed : bool) then (NeverCalled, rw1)
    else callback (find_by_id oid (db_reviews rw1)) rw1.

(** [addReview(review, callback)]: the new document is inserted; an error of
    the save (a failure of the store, or an identifier already taken) ends
    in the empty [if (err)] branch. *)
Definition addReview {R} (review : ReviewTemplate) (callback : Review -> RAsync R)
  : RAsync R :=
  fun rw =>
    let '(oid, rw1) := lift fresh_oid rw in
    let reviewObject := new_Review oid review in
    let '(failed, rw2) := lift fault rw1 in
    if (failed : bool) then (NeverCalled, rw2)
    else
      match find_by_id (_id reviewObject) (db_reviews rw2) with
      | Some _ => (NeverCalled, rw2)
      | None => callback reviewObject (mkRWorld (base rw2) (db_reviews rw2 ++ [reviewObject]))
      end.

Definition rreport {A} (a : A) : RAsync A := fun rw => (Returned a, rw).

(** ** Further notions for the statements *)

(** Every user holds a category exactly when the category holds the user. *)
Definition symmetric_for (c : CategoryRec) (s : Store) : Prop :=
  forall u, In u (db_users s) ->
            (In (_id c) (categories u) <-> In (_id u) (freelancers c)).

Definition praise : ReviewTemplate :=
  mkReviewTemplate (Some "u1") (Some "j1") [("text", "on time"); ("rate", "5")].

(** Symmetric membership over the whole store: a stored user's
    [categories] hold a stored category exactly when that category's
    [freelancers] hold the user. *)
Definition symmetric (s : Store) : Prop :=
  forall c, In c (db_categories s) -> symmetric_for c s.

(** * Properties *)

(** ** The state monad and round trips *)

Lemma bind_eq {A B} (m : IO A) (k : A -> IO B) w a w' :
  m w = (a, w') -> bind m k w = k a w'.
Proof. intros Hm. unfold bind. now rewrite Hm. Qed.

Lemma roundtrip_ok {A} e (op : Store -> error + (A * Store)) w a s' :
  succeeds 0 w -> op (store w) = inr (a, s') ->
  roundtrip e op w = (inr a, advance e s' w).
Proof.
  unfold succeeds, roundtrip, bind, emit, fault, get_store, put_store, advance, ret.
  destruct w as [s fs g n t]; simpl. intros Hf Hop.
  destruct fs as [|f fs]; cbn in *; subst; cbn; rewrite Hop; reflexivity.
Qed.

Lemma roundtrip_fault {A} e (op : Store -> error + (A * Store)) w :
  nth 0 (faults w) false = true ->
  roundtrip e op w = (inl StoreFailure, advance e (store w) w).
Proof.
  unfold roundtrip, bind, emit, fault, advance, ret.
  destruct w as [s fs g n t]; simpl. intros Hf.
  destruct fs as [|f fs]; simpl in *; now subst.
Qed.

Lemma succeeds_advance n e s w : succeeds n (advance e s w) <-> succeeds (S n) w.
Proof.
  unfold succeeds, advance; simpl. destruct (faults w) as [|f fs]; simpl; [|reflexivity].
  now destruct n.
Qed.

Lemma store_advance e s w : store (advance e s w) = s.
Proof. reflexivity. Qed.

Lemma faults_advance e s w : faults w = [] -> faults (advance e s w) = [].
Proof. unfold advance; simpl. now intros ->. Qed.

Lemma succeeds_nil n w : faults w = [] -> succeeds n w.
Proof. unfold succeeds. intros ->. now destruct n. Qed.

(** ** Identifiers, lookups and updates *)

Lemma oid_eqb_eq a b : oid_eqb a b = true <-> a = b.
Proof. apply String.eqb_eq. Qed.

Lemma oid_eqb_refl a : oid_eqb a a = true.
Proof. apply String.eqb_refl. Qed.

Lemma oid_eqb_sym a b : oid_eqb a b = oid_eqb b a.
Proof. apply String.eqb_sym. Qed.

Lemma oid_in_In x l : oid_in x l = true <-> In x l.
Proof.
  unfold oid_in. rewrite existsb_exists. split.
  - intros (y & Hy & Heq). apply oid_eqb_eq in Heq. now subst.
  - intros Hx. exists x. split; [assumption | apply oid_eqb_refl].
Qed.

Lemma oid_in_false x l : oid_in x l = false <-> ~ In x l.
Proof. rewrite <- oid_in_In. now destruct (oid_in x l). Qed.

Section Collections.
Context {D : Type} `{Document D}.
Implicit Types (d : D) (l : list D) (x : ObjectId).

Lemma find_by_id_id x l d : find_by_id x l = Some d -> _id d = x.
Proof.
  unfold find_by_id. intros Hf. apply find_some in Hf as [_ Heq].
  now apply oid_eqb_eq.
Qed.

Lemma find_by_id_In x l d : find_by_id x l = Some d -> In d l.
Proof. unfold find_by_id. intros Hf. now apply find_some in Hf. Qed.

Lemma find_update_same d l :
  is_Some (find_by_id (_id d) l) -> find_by_id (_id d) (update_by_id d l) = Some d.
Proof.
  unfold find_by_id. induction l as [|y l IH]; simpl.
  - intros [? [=]].
  - destruct (oid_eqb (_id y) (_id d)) eqn:E; simpl.
    + now rewrite oid_eqb_refl.
    + rewrite E. exact IH.
Qed.

Lemma find_update_other x d l :
  x <> _id d -> find_by_id x (update_by_id d l) = find_by_id x l.
Proof.
  unfold find_by_id. intros Hne. induction l as [|y l IH]; simpl; [reflexivity|].
  destruct (oid_eqb (_id y) (_id d)) eqn:E; simpl.
  - apply oid_eqb_eq in E.
    destruct (oid_eqb (_id d) x) eqn:E1; [apply oid_eqb_eq in E1; congruence|].
    destruct (oid_eqb (_id y) x) eqn:E2; [apply oid_eqb_eq in E2; congruence|].
    reflexivity.
  - now rewrite IH.
Qed.

Lemma update_by_id_same d l : find_by_id (_id d) l = Some d -> update_by_id d l = l.
Proof.
  unfold find_by_id. induction l as [|y l IH]; simpl; [reflexivity|].
  destruct (oid_eqb (_id y) (_id d)) eqn:E.
  - now intros [= ->].
  - intros Hf. now rewrite IH.
Qed.

Lemma find_test_update (test : D -> bool) d d' l :
  List.find test l = Some d -> _id d' = _id d -> test d' = true ->
  List.find test (update_by_id d' l) = Some d'.
Proof.
  intros Hf Hid Ht. induction l as [|y l IH]; simpl in *; [discriminate|].
  destruct (oid_eqb (_id y) (_id d')) eqn:E; simpl.
  - now rewrite Ht.
  - destruct (test y) eqn:Ty.
    + injection Hf as ->. rewrite Hid, oid_eqb_refl in E. discriminate.
    + now apply IH.
Qed.

Lemma update_by_id_length d l : length (update_by_id d l) = length l.
Proof.
  induction l as [|y l IH]; simpl; [reflexivity|].
  destruct (oid_eqb (_id y) (_id d)); simpl; congruence.
Qed.

(** Population keeps exactly the references that resolve. *)
Lemma resolve_ids l refs : _id <$> resolve l refs = live l refs.
Proof.
  unfold resolve, live. induction refs as [|r refs IH]; simpl; [reflexivity|].
  destruct (find_by_id r l) as [d|] eqn:E; simpl.
  - rewrite (find_by_id_id _ _ _ E). f_equal. exact IH.
  - exact IH.
Qed.
End Collections.

Lemma occ_pos x l : oid_in x l = true <-> (0 < occ x l)%nat.
Proof.
  unfold oid_in, occ. induction l as [|y l IH]; simpl.
  - split; [discriminate | lia].
  - destruct (oid_eqb x y); simpl; [split; [lia | reflexivity] | exact IH].
Qed.

Lemma occ_zero x l : oid_in x l = false <-> occ x l = 0%nat.
Proof.
  pose proof (occ_pos x l) as Hp. destruct (oid_in x l).
  - split; [discriminate|]. intros Hz. destruct Hp as [Hp _]. specialize (Hp eq_refl). lia.
  - split; [|reflexivity]. intros _. destruct (occ x l); [reflexivity|].
    destruct Hp as [_ Hp]. discriminate Hp. lia.
Qed.

Lemma occ_app x l1 l2 : occ x (l1 ++ l2)%list = (occ x l1 + occ x l2)%nat.
Proof. unfold occ. now rewrite List.filter_app, length_app. Qed.

Lemma occ_live {D} `{Document D} (coll : list D) x refs :
  is_Some (find_by_id x coll) -> occ x (live coll refs) = occ x refs.
Proof.
  intros Hx. unfold occ, live. induction refs as [|r refs IH]; simpl; [reflexivity|].
  destruct (oid_eqb x r) eqn:E.
  - apply oid_eqb_eq in E. subst r. rewrite bool_decide_eq_true_2 by assumption.
    simpl. rewrite oid_eqb_refl. simpl. now f_equal.
  - destruct (bool_decide _); simpl; [rewrite E|]; exact IH.
Qed.

Lemma occ_remove_first x l :
  occ x (remove_first (oid_eqb x) l) = pred (occ x l).
Proof.
  unfold occ. induction l as [|y l IH]; simpl; [reflexivity|].
  destruct (oid_eqb x y) eqn:E; simpl; [reflexivity|]. now rewrite E.
Qed.

Lemma remove_first_split {A} (test : A -> bool) l :
  existsb test l = true ->
  exists l1 x l2, l = (l1 ++ x :: l2)%list /\ existsb test l1 = false /\ test x = true
                  /\ remove_first test l = (l1 ++ l2)%list.
Proof.
  induction l as [|y l IH]; simpl; [discriminate|].
  destruct (test y) eqn:E; simpl.
  - intros _. exists [], y, l. now rewrite E.
  - intros Hl. destruct (IH Hl) as (l1 & x & l2 & -> & H1 & Hx & Hr).
    exists (y :: l1), x, l2. simpl. rewrite E, Hr. simpl. auto.
Qed.

Lemma remove_first_none {A} (test : A -> bool) l :
  existsb test l = false -> remove_first test l = l.
Proof.
  induction l as [|y l IH]; simpl; [reflexivity|].
  destruct (test y); simpl; [discriminate|]. intros Hl. now rewrite IH.
Qed.

Lemma remove_first_fmap {A B} (f : A -> B) (test : B -> bool) l :
  f <$> remove_first (fun a => test (f a)) l = remove_first test (f <$> l).
Proof.
  induction l as [|y l IH]; simpl; [reflexivity|].
  destruct (test (f y)); simpl; [reflexivity|]. now f_equal.
Qed.

(** ** The scanning loops *)

Lemma scan_bounds {A} (test : A -> bool) l i :
  0 <= i -> scan test l i = -1 \/ i <= scan test l i.
Proof.
  revert i. induction l as [|x l IH]; simpl; intros i Hi; [now left|].
  destruct (test x); [right; lia|]. destruct (IH (i + 1)) as [?|?]; [lia| now left | right; lia].
Qed.

Lemma scan_found {A} (test : A -> bool) l i :
  0 <= i -> (scan test l i <? 0)%Z = negb (existsb test l).
Proof.
  revert i. induction l as [|x l IH]; simpl; intros i Hi; [reflexivity|].
  destruct (test x); simpl; [|apply IH; lia].
  apply Z.ltb_ge. lia.
Qed.

Lemma scan_found_gt {A} (test : A -> bool) l i :
  0 <= i -> (scan test l i >? -1)%Z = existsb test l.
Proof.
  intros Hi. pose proof (scan_found test l i Hi) as Hs.
  rewrite Z.gtb_ltb. destruct (scan_bounds test l i Hi) as [E|E].
  - rewrite E in *. simpl in Hs. destruct (existsb test l); [discriminate|reflexivity].
  - destruct (existsb test l); simpl in Hs.
    + apply Z.ltb_lt. lia.
    + apply Z.ltb_lt in Hs. lia.
Qed.

Lemma splice1_scan {A} (test : A -> bool) l i :
  0 <= i -> existsb test l = true ->
  delete (Z.to_nat (scan test l i - i)) l = remove_first test l.
Proof.
  revert i. induction l as [|x l IH]; simpl; intros i Hi; [discriminate|].
  destruct (test x) eqn:E; simpl; intros Hl.
  - now rewrite Z.sub_diag.
  - pose proof (scan_found test l (i + 1) ltac:(lia)) as Hs. rewrite Hl in Hs.
    simpl in Hs. apply Z.ltb_ge in Hs.
    destruct (scan_bounds test l (i + 1) ltac:(lia)) as [Hb|Hb]; [lia|].
    replace (Z.to_nat (scan test l (i + 1) - i)) with (S (Z.to_nat (scan test l (i + 1) - (i + 1)))) by lia.
    simpl. f_equal. apply IH; [lia | assumption].
Qed.

(** ** What the store calls compute *)

Lemma findUser_run {R} query (k : option UserDoc -> Async R) w :
  succeeds 0 w ->
  findUser query k w =
    k (populate_user (store w) <$> List.find query (db_users (store w)))
      (advance User_findOne (store w) w).
Proof.
  intros H0. unfold findUser, User_findOne_populate.
  erewrite bind_eq by (now apply roundtrip_ok). reflexivity.
Qed.

Lemma findUser_fault {R} query (k : option UserDoc -> Async R) w :
  nth 0 (faults w) false = true ->
  findUser query k w = (Thrown (Rethrown StoreFailure), advance User_findOne (store w) w).
Proof.
  intros H0. unfold findUser, User_findOne_populate.
  erewrite bind_eq by (now apply roundtrip_fault). reflexivity.
Qed.

Lemma save_user_run doc w :
  save_user doc w =
    if nth 0 (faults w) false
    then (inl StoreFailure, advance (User_save doc) (store w) w)
    else (inr doc,
          advance (User_save doc)
            (with_users (update_by_id (depopulate_user doc) (db_users (store w))) (store w)) w).
Proof.
  unfold save_user. destruct (nth 0 (faults w) false) eqn:E.
  - now apply roundtrip_fault.
  - now apply roundtrip_ok.
Qed.

Lemma save_category_run doc w :
  save_category doc w =
    if nth 0 (faults w) false
    then (inl StoreFailure, advance (Category_save doc) (store w) w)
    else (inr doc,
          advance (Category_save doc)
            (with_categories (update_by_id doc (db_categories (store w))) (store w)) w).
Proof.
  unfold save_category. destruct (nth 0 (faults w) false) eqn:E.
  - now apply roundtrip_fault.
  - now apply roundtrip_ok.
Qed.

Lemma nth_faults_advance n e s w :
  nth n (faults (advance e s w)) false = nth (S n) (faults w) false.
Proof.
  unfold advance; simpl. destruct (faults w) as [|f fs]; simpl; [|reflexivity].
  now destruct n.
Qed.

(** The whole of [findCategoryCallback] on a loaded pair, whatever the two
    saves answer. *)
Lemma findCategoryCallback_run {R} category user
    (callback : option error -> option UserDoc -> bool -> Async R) w :
  findCategoryCallback category (Some user) callback w =
    let '(user', category', index) := toggle_membership category user in
    let s := store w in
    let s1 := if nth 0 (faults w) false then s
              else with_users (update_by_id (depopulate_user user') (db_users s)) s in
    let w1 := advance (User_save user') s1 w in
    let s2 := if nth 1 (faults w) false then s1
              else with_categories (update_by_id category' (db_categories s1)) s1 in
    let w2 := advance (Category_save category') s2 w1 in
    if nth 1 (faults w) false then (NeverCalled, w2)
    else callback None (if nth 0 (faults w) false then None else Some user')
                  (index <? 0)%Z w2.
Proof.
  unfold findCategoryCallback.
  destruct (toggle_membership category user) as [[user' category'] index].
  cbv zeta.
  pose proof (save_user_run user' w) as Hu.
  destruct (nth 0 (faults w) false) eqn:E0;
    erewrite bind_eq by exact Hu;
    match goal with
    | |- bind (save_category ?c) _ ?w1 = _ =>
        pose proof (save_category_run c w1) as Hc
    end;
    rewrite nth_faults_advance in Hc;
    destruct (nth 1 (faults w) false) eqn:E1;
    erewrite bind_eq by exact Hc; reflexivity.
Qed.

Lemma toggleCategoryForUser_run {R} chatId categoryId
    (callback : option error -> option UserDoc -> bool -> Async R) w :
  succeeds 0 w -> succeeds 1 w ->
  toggleCategoryForUser chatId categoryId callback w =
    let s := store w in
    let w2 := advance (Category_findById categoryId) s (advance User_findOne s w) in
    match the_category categoryId s with
    | Some category =>
        findCategoryCallback category (populate_user s <$> the_user chatId s) callback w2
    | None => (NeverCalled, w2)
    end.
Proof.
  intros H0 H1. unfold toggleCategoryForUser.
  rewrite findUser_run by assumption.
  unfold Category_findById_exec.
  erewrite bind_eq by (apply roundtrip_ok; [now apply succeeds_advance | reflexivity]).
  rewrite store_advance. unfold the_category.
  destruct (find_by_id categoryId (db_categories (store w))); reflexivity.
Qed.

(** ** The in-memory half of the toggle *)

Lemma scan_absent {A} (test : A -> bool) l i : existsb test l = false -> scan test l i = -1.
Proof.
  revert i. induction l as [|x l IH]; simpl; intros i; [reflexivity|].
  destruct (test x); simpl; [discriminate | apply IH].
Qed.

Lemma remove_first_ext {A} (f g : A -> bool) l :
  (forall a, f a = g a) -> remove_first f l = remove_first g l.
Proof.
  intros Hfg. induction l as [|x l IH]; simpl; [reflexivity|].
  rewrite Hfg, IH. reflexivity.
Qed.

Lemma existsb_fmap {A B} (f : A -> B) (test : B -> bool) l :
  existsb test (f <$> l) = existsb (fun a => test (f a)) l.
Proof. induction l as [|x l IH]; simpl; [reflexivity|]. f_equal. exact IH. Qed.

Lemma existsb_pointwise {A} (f g : A -> bool) l :
  (forall a, f a = g a) -> existsb f l = existsb g l.
Proof.
  intros Hfg. induction l as [|x l IH]; simpl; [reflexivity|]. now rewrite Hfg, IH.
Qed.

Lemma set_freelancers_same (c : CategoryRec) : set_freelancers (freelancers c) c = c.
Proof. now destruct c. Qed.

(** The category is not among the user's: both documents get an entry
    appended and [index] stays -1. *)
Lemma toggle_membership_add (c : CategoryRec) (user : UserDoc) :
  oid_in (_id c) (_id <$> categories user) = false ->
  toggle_membership c user =
    (set_categories (categories user ++ [c]) user,
     set_freelancers (freelancers c ++ [_id user]) c,
     -1).
Proof.
  intros Hin. unfold toggle_membership, str.
  assert (existsb (fun ic : CategoryRec => String.eqb (_id ic) (_id c)) (categories user) = false)
    as Hex.
  { unfold oid_in in Hin. rewrite existsb_fmap in Hin. rewrite <- Hin.
    apply existsb_pointwise. intros a. apply String.eqb_sym. }
  rewrite (scan_absent _ _ 0 Hex). reflexivity.
Qed.

(** The category is among the user's: the first matching entry leaves the
    user's array, and the first entry for the user, if any, leaves the
    category's. *)
Lemma toggle_membership_remove (c : CategoryRec) (user : UserDoc) :
  oid_in (_id c) (_id <$> categories user) = true ->
  exists index,
    (index <? 0)%Z = false /\
    toggle_membership c user =
      (set_categories
         (remove_first (fun ic : CategoryRec => oid_eqb (_id c) (_id ic)) (categories user)) user,
       set_freelancers (remove_first (oid_eqb (_id user)) (freelancers c)) c,
       index).
Proof.
  intros Hin. unfold toggle_membership, str.
  set (test := fun ic : CategoryRec => String.eqb (_id ic) (_id c)).
  assert (existsb test (categories user) = true) as Hex.
  { unfold oid_in in Hin. rewrite existsb_fmap in Hin. rewrite <- Hin.
    apply existsb_pointwise. intros a. apply String.eqb_sym. }
  exists (scan test (categories user) 0).
  pose proof (scan_found test (categories user) 0 ltac:(lia)) as Hlt.
  rewrite Hex in Hlt. simpl in Hlt. rewrite Hlt. split; [reflexivity|].
  assert (splice1 (scan test (categories user) 0) (categories user)
          = remove_first (fun ic : CategoryRec => oid_eqb (_id c) (_id ic)) (categories user))
    as ->.
  { unfold splice1. rewrite <- (Z.sub_0_r (scan test (categories user) 0)).
    rewrite splice1_scan by (lia || assumption).
    apply remove_first_ext. intros a. apply String.eqb_sym. }
  f_equal. f_equal.
  set (testf := fun f : ObjectId => String.eqb f _).
  rewrite (scan_found_gt testf (freelancers c) 0) by lia.
  assert (forall a, testf a = oid_eqb (_id user) a) as Hext.
  { intros a. unfold testf. simpl. apply String.eqb_sym. }
  destruct (existsb testf (freelancers c)) eqn:Hf.
  - unfold splice1. rewrite <- (Z.sub_0_r (scan testf (freelancers c) 0)).
    rewrite splice1_scan by (lia || assumption).
    now rewrite (remove_first_ext _ _ _ Hext).
  - rewrite <- (remove_first_ext _ _ _ Hext), remove_first_none by assumption.
    symmetry. apply set_freelancers_same.
Qed.

Lemma oid_in_live {D} `{Document D} (coll : list D) x refs :
  is_Some (find_by_id x coll) -> oid_in x (live coll refs) = oid_in x refs.
Proof.
  intros Hx. pose proof (occ_live coll x refs Hx) as Ho.
  destruct (oid_in x refs) eqn:E.
  - apply occ_pos. apply occ_pos in E. lia.
  - apply occ_zero. apply occ_zero in E. lia.
Qed.

(** What one undisturbed toggle does to the store, for a user and a category
    that resolve. *)
Lemma toggle_step chatId cid0 w u c :
  faults w = [] ->
  the_user chatId (store w) = Some u ->
  the_category cid0 (store w) = Some c ->
  exists (u' : UserDoc) (c' : CategoryRec) (w' : World),
    (forall R (callback : option error -> option UserDoc -> bool -> Async R),
        toggleCategoryForUser chatId cid0 callback w
        = callback None (Some u') (negb (oid_in cid0 (categories u))) w')
    /\ faults w' = []
    /\ the_user chatId (store w') = Some (depopulate_user u')
    /\ the_category cid0 (store w') = Some c'
    /\ _id u' = _id u
    /\ categories (depopulate_user u')
       = (if oid_in cid0 (categories u)
          then remove_first (oid_eqb cid0) (live (db_categories (store w)) (categories u))
          else live (db_categories (store w)) (categories u) ++ [cid0])%list
    /\ c' = set_freelancers
               (if oid_in cid0 (categories u)
                then remove_first (oid_eqb (_id u)) (freelancers c)
                else freelancers c ++ [_id u])%list c
    /\ db_categories (store w') = update_by_id c' (db_categories (store w))
    /\ db_users (store w') = update_by_id (depopulate_user u') (db_users (store w)).
Proof.
  intros Hf Hu Hc.
  pose proof (find_by_id_id _ _ _ Hc) as Hcid.
  assert (oid_in (_id c) (_id <$> categories (populate_user (store w) u))
          = oid_in cid0 (categories u)) as Hin.
  { simpl. rewrite resolve_ids, Hcid. apply oid_in_live. unfold the_category in Hc.
    rewrite Hc. eauto. }
  assert (exists u' c' index,
             toggle_membership c (populate_user (store w) u) = (u', c', index)
             /\ (index <? 0)%Z = negb (oid_in cid0 (categories u))
             /\ _id u' = _id u /\ id u' = id u /\ _id c' = cid0
             /\ categories (depopulate_user u')
                = (if oid_in cid0 (categories u)
                   then remove_first (oid_eqb cid0) (live (db_categories (store w)) (categories u))
                   else live (db_categories (store w)) (categories u) ++ [cid0])%list
             /\ c' = set_freelancers
                        (if oid_in cid0 (categories u)
                         then remove_first (oid_eqb (_id u)) (freelancers c)
                         else freelancers c ++ [_id u])%list c)
    as (u' & c' & index & Htm & Hidx & Hidu & Hchat & Hidc & Hcats & Hfl).
  { destruct (oid_in cid0 (categories u)) eqn:E.
    - destruct (toggle_membership_remove _ _ Hin) as (index & Hlt & Htm).
      eexists _, _, index. split; [exact Htm|].
      repeat split; try assumption.
      simpl. rewrite (remove_first_fmap _id (oid_eqb (_id c))), resolve_ids.
      now rewrite Hcid.
    - rewrite (toggle_membership_add _ _ Hin).
      eexists _, _, _. split; [reflexivity|].
      repeat split; try assumption.
      simpl. rewrite fmap_app, resolve_ids. simpl. now rewrite Hcid. }
  set (s := store w).
  set (s1 := with_users (update_by_id (depopulate_user u') (db_users s)) s).
  set (s2 := with_categories (update_by_id c' (db_categories s1)) s1).
  exists u', c',
    (advance (Category_save c') s2
       (advance (User_save u') s1
          (advance (Category_findById cid0) s (advance User_findOne s w)))).
  split; [|repeat split; try assumption].
  - intros R callback.
    rewrite toggleCategoryForUser_run by (now apply succeeds_nil).
    cbv zeta. rewrite Hc, Hu. simpl fmap.
    rewrite findCategoryCallback_run, Htm.
    cbv zeta. repeat rewrite nth_faults_advance. rewrite Hf. simpl nth. cbv iota.
    rewrite Hidx. reflexivity.
  - now repeat apply faults_advance.
  - unfold the_user. simpl. apply (find_test_update _ u); [exact Hu | exact Hidu |].
    unfold the_user in Hu. apply find_some in Hu as [_ Hu].
    unfold by_chat_id in *. simpl. now rewrite Hchat.
  - unfold the_category. simpl. rewrite <- Hidc. apply find_update_same.
    rewrite Hidc. unfold the_category in Hc. fold s in Hc. rewrite Hc. eauto.
Qed.

(** One undisturbed toggle, by the number of entries on each side. *)
Lemma toggle_counts chatId cid0 w u c :
  faults w = [] ->
  the_user chatId (store w) = Some u ->
  the_category cid0 (store w) = Some c ->
  exists (u' : UserDoc) (u1 : UserRec) (c1 : CategoryRec) (w' : World),
    (forall R (callback : option error -> option UserDoc -> bool -> Async R),
        toggleCategoryForUser chatId cid0 callback w
        = callback None (Some u') (negb (oid_in cid0 (categories u))) w')
    /\ faults w' = []
    /\ the_user chatId (store w') = Some u1
    /\ the_category cid0 (store w') = Some c1
    /\ _id u1 = _id u
    /\ occ cid0 (categories u1)
       = (if oid_in cid0 (categories u) then pred (occ cid0 (categories u))
          else S (occ cid0 (categories u)))
    /\ occ (_id u) (freelancers c1)
       = (if oid_in cid0 (categories u) then pred (occ (_id u) (freelancers c))
          else S (occ (_id u) (freelancers c))).
Proof.
  intros Hf Hu Hc.
  destruct (toggle_step chatId cid0 w u c Hf Hu Hc)
    as (u' & c' & w' & Hrun & Hf' & Hu' & Hc' & Hid & Hcats & Hfl & _).
  exists u', (depopulate_user u'), c', w'.
  assert (is_Some (find_by_id cid0 (db_categories (store w)))) as Hres.
  { unfold the_category in Hc. rewrite Hc. eauto. }
  repeat split; try assumption.
  - rewrite Hcats. destruct (oid_in cid0 (categories u)).
    + rewrite occ_remove_first. now rewrite occ_live.
    + rewrite occ_app, occ_live by assumption. unfold occ at 2. simpl.
      rewrite oid_eqb_refl. simpl. lia.
  - rewrite Hfl. simpl. destruct (oid_in cid0 (categories u)).
    + apply occ_remove_first.
    + rewrite occ_app. unfold occ at 2. simpl. rewrite oid_eqb_refl. simpl. lia.
Qed.

Lemma occ_In x l : In x l <-> (0 < occ x l)%nat.
Proof. rewrite <- oid_in_In. apply occ_pos. Qed.

Lemma occ_not_In x l : ~ In x l <-> occ x l = 0%nat.
Proof. rewrite <- oid_in_false. apply occ_zero. Qed.

(** ** Toggle symmetry *)

(** C1.  For a user and a category that both resolve and are linked on
    neither side, three toggles in a row (with no store failure) report
    added = true, false, true; after the first and the third the category is
    among the user's categories and the user among the category's
    freelancers, after the second neither is the case. *)
Theorem toggle_symmetry chatId cid0 w u c :
  faults w = [] ->
  the_user chatId (store w) = Some u ->
  the_category cid0 (store w) = Some c ->
  ~ In cid0 (categories u) ->
  ~ In (_id u) (freelancers c) ->
  exists u1 w1 u2 w2 u3 w3,
    (forall R (callback : option error -> option UserDoc -> bool -> Async R),
        toggleCategoryForUser chatId cid0 callback w = callback None (Some u1) true w1)
    /\ linked chatId cid0 (store w1)
    /\ (forall R (callback : option error -> option UserDoc -> bool -> Async R),
          toggleCategoryForUser chatId cid0 callback w1 = callback None (Some u2) false w2)
    /\ unlinked chatId cid0 (store w2)
    /\ (forall R (callback : option error -> option UserDoc -> bool -> Async R),
          toggleCategoryForUser chatId cid0 callback w2 = callback None (Some u3) true w3)
    /\ linked chatId cid0 (store w3).
Proof.
  intros Hf Hu Hc HnU HnC.
  apply occ_not_In in HnC.
  pose proof HnU as HoU. apply occ_not_In in HoU. apply oid_in_false in HnU.
  destruct (toggle_counts chatId cid0 w u c Hf Hu Hc)
    as (d1 & u1 & c1 & w1 & Hrun1 & Hf1 & Hu1 & Hc1 & Hid1 & HU1 & HC1).
  rewrite HnU, HoU in HU1. rewrite HnU, HnC in HC1. rewrite HnU in Hrun1.
  simpl in Hrun1.
  assert (oid_in cid0 (categories u1) = true) as Hin1 by (apply occ_pos; lia).
  destruct (toggle_counts chatId cid0 w1 u1 c1 Hf1 Hu1 Hc1)
    as (d2 & u2 & c2 & w2 & Hrun2 & Hf2 & Hu2 & Hc2 & Hid2 & HU2 & HC2).
  rewrite Hin1, HU1 in HU2. rewrite Hin1, Hid1, HC1 in HC2. rewrite Hin1 in Hrun2.
  simpl in HU2, HC2, Hrun2.
  assert (oid_in cid0 (categories u2) = false) as Hin2 by (now apply occ_zero).
  destruct (toggle_counts chatId cid0 w2 u2 c2 Hf2 Hu2 Hc2)
    as (d3 & u3 & c3 & w3 & Hrun3 & Hf3 & Hu3 & Hc3 & Hid3 & HU3 & HC3).
  rewrite Hin2, HU2 in HU3. rewrite Hin2, Hid2, Hid1, HC2 in HC3. rewrite Hin2 in Hrun3.
  simpl in Hrun3.
  exists d1, w1, d2, w2, d3, w3. repeat split; try assumption.
  - exists u1, c1. repeat split; try assumption.
    + apply occ_In. lia.
    + rewrite Hid1. apply occ_In. lia.
  - exists u2, c2. repeat split; try assumption.
    + now apply occ_not_In.
    + rewrite Hid2, Hid1. now apply occ_not_In.
  - exists u3, c3. repeat split; try assumption.
    + apply occ_In. lia.
    + rewrite Hid3, Hid2, Hid1. apply occ_In. lia.
Qed.

(** The store of the examples with one link removed on both sides: Amy is
    not in the category Art, nor Art among her categories. *)
Lemma toggle_symmetry_witness :
  exists u1 w1 u2 w2 u3 w3,
    (forall R (callback : option error -> option UserDoc -> bool -> Async R),
        toggleCategoryForUser 101 "c2" callback (world_of store0 [])
        = callback None (Some u1) true w1)
    /\ linked 101 "c2" (store w1)
    /\ (forall R (callback : option error -> option UserDoc -> bool -> Async R),
          toggleCategoryForUser 101 "c2" callback w1 = callback None (Some u2) false w2)
    /\ unlinked 101 "c2" (store w2)
    /\ (forall R (callback : option error -> option UserDoc -> bool -> Async R),
          toggleCategoryForUser 101 "c2" callback w2 = callback None (Some u3) true w3)
    /\ linked 101 "c2" (store w3).
Proof.
  apply (toggle_symmetry 101 "c2" (world_of store0 []) amy cat_art).
  - reflexivity.
  - reflexivity.
  - reflexivity.
  - simpl. intros [H|[]]. discriminate H.
  - simpl. intros [].
Defined.

(** ** Toggle on a one-sided link *)

(** C2.  When the user's categories hold the category but the category's
    freelancers do not hold the user, an undisturbed toggle calls back with
    no error and added = false; the first entry for the category is gone
    from the user's stored categories (one occurrence fewer; none is left
    when there was one), and the collection of categories, so the category's
    freelancers, is as before. *)
Theorem toggle_tolerates_asymmetry chatId cid0 w u c :
  faults w = [] ->
  the_user chatId (store w) = Some u ->
  the_category cid0 (store w) = Some c ->
  In cid0 (categories u) ->
  ~ In (_id u) (freelancers c) ->
  exists (u' : UserDoc) (u1 : UserRec) (w' : World),
    (forall R (callback : option error -> option UserDoc -> bool -> Async R),
        toggleCategoryForUser chatId cid0 callback w = callback None (Some u') false w')
    /\ the_user chatId (store w') = Some u1
    /\ (exists l1 l2,
           live (db_categories (store w)) (categories u) = (l1 ++ cid0 :: l2)%list
           /\ ~ In cid0 l1
           /\ categories u1 = (l1 ++ l2)%list)
    /\ S (occ cid0 (categories u1)) = occ cid0 (categories u)
    /\ (occ cid0 (categories u) = 1%nat -> ~ In cid0 (categories u1))
    /\ db_categories (store w') = db_categories (store w)
    /\ the_category cid0 (store w') = Some c.
Proof.
  intros Hf Hu Hc HinU HnC.
  pose proof HinU as HoU. apply occ_In in HoU.
  apply oid_in_In in HinU. apply oid_in_false in HnC.
  destruct (toggle_step chatId cid0 w u c Hf Hu Hc)
    as (u' & c' & w' & Hrun & Hf' & Hu' & Hc' & Hid & Hcats & Hfl & Hdbc & _).
  rewrite HinU in Hrun, Hcats, Hfl. simpl in Hrun.
  assert (is_Some (find_by_id cid0 (db_categories (store w)))) as Hres.
  { unfold the_category in Hc. rewrite Hc. eauto. }
  assert (c' = c) as ->.
  { rewrite Hfl. unfold oid_in in HnC. rewrite remove_first_none by assumption.
    apply set_freelancers_same. }
  assert (db_categories (store w') = db_categories (store w)) as Hsame.
  { rewrite Hdbc. apply update_by_id_same.
    rewrite (find_by_id_id _ _ _ Hc). exact Hc. }
  exists u', (depopulate_user u'), w'. repeat split; try assumption.
  - pose proof (oid_in_live (db_categories (store w)) cid0 (categories u) Hres) as Hl.
    rewrite HinU in Hl.
    destruct (remove_first_split (oid_eqb cid0) _ Hl) as (l1 & x & l2 & Hsp & Hl1 & Hx & Hrm).
    apply oid_eqb_eq in Hx. subst x.
    exists l1, l2. repeat split; [assumption | now apply oid_in_false | congruence].
  - rewrite Hcats, occ_remove_first, occ_live by assumption. lia.
  - intros Hone. apply occ_not_In.
    rewrite Hcats, occ_remove_first, occ_live by assumption. lia.
Qed.

Lemma toggle_tolerates_asymmetry_witness :
  exists (u' : UserDoc) (u1 : UserRec) (w' : World),
    (forall R (callback : option error -> option UserDoc -> bool -> Async R),
        toggleCategoryForUser 101 "c2" callback (world_of store_one_sided [])
        = callback None (Some u') false w')
    /\ the_user 101 (store w') = Some u1
    /\ (exists l1 l2,
           live (db_categories store_one_sided) (categories amy_art)
           = (l1 ++ "c2" :: l2)%list
           /\ ~ In "c2" l1
           /\ categories u1 = (l1 ++ l2)%list)
    /\ S (occ "c2" (categories u1)) = occ "c2" (categories amy_art)
    /\ (occ "c2" (categories amy_art) = 1%nat -> ~ In "c2" (categories u1))
    /\ db_categories (store w') = db_categories store_one_sided
    /\ the_category "c2" (store w') = Some cat_art.
Proof.
  apply (toggle_tolerates_asymmetry 101 "c2" (world_of store_one_sided []) amy_art cat_art).
  - reflexivity.
  - reflexivity.
  - reflexivity.
  - simpl. right. left. reflexivity.
  - simpl. intros [].
Defined.

(** ** The availability filter *)

#[local] Instance name_desc_total : Total name_desc.
Proof. intros u v. unfold name_desc. destruct (String.leb_total (name u) (name v)); auto. Qed.

#[local] Instance title_asc_total {F} : Total (@title_asc F).
Proof. intros c d. unfold title_asc. apply String.leb_total. Qed.

Lemma q_available u :
  q_and [q_busy false; q_bio_exists; q_hourly_rate_exists] u = true <-> available u.
Proof.
  unfold q_and, q_busy, q_bio_exists, q_hourly_rate_exists, available. simpl.
  destruct (busy u), (bio u), (hourly_rate u); simpl; split; intros H;
    try discriminate; try reflexivity;
    try (destruct H as (H1 & [? H2] & [? H3]); discriminate);
    repeat split; eauto.
Qed.

Lemma populate_freelancers_listing s c :
  available_listing s c
    (freelancers
       (populate_freelancers (q_and [q_busy false; q_bio_exists; q_hourly_rate_exists])
                             name_desc s c)).
Proof.
  unfold populate_freelancers. simpl. split.
  - apply Sorted_merge_sort. apply _.
  - intros u. rewrite <- q_available, <- oid_in_In.
    split.
    + intros Hin. apply (Permutation_in _ (merge_sort_Permutation name_desc _)) in Hin.
      apply filter_In in Hin as [Hin Hq]. apply andb_true_iff in Hq. tauto.
    + intros (Hin & Hf & Hq).
      apply (Permutation_in _ (Permutation_sym (merge_sort_Permutation name_desc _))).
      apply filter_In. split; [assumption|]. now apply andb_true_iff.
Qed.

Lemma populate_freelancers_view s c :
  category_view s
    (populate_freelancers (q_and [q_busy false; q_bio_exists; q_hourly_rate_exists])
                          name_desc s c) c.
Proof.
  split; [reflexivity|]. split; [reflexivity|]. apply populate_freelancers_listing.
Qed.

(** C3.  When the store answers, [getCategory] hands the callback the first
    category with the given title and [getCategories] all categories by
    ascending title, and in both the freelancers are exactly the stored
    users that the category references with busy = false, a bio and an
    hourly rate, ordered by name descending. *)
Theorem availability_filter (w : World) (categoryTitle : string) :
  succeeds 0 w ->
  exists (one : option CategoryDoc) (all : list CategoryDoc),
    (forall R (callback : option error -> option CategoryDoc -> Async R),
        getCategory categoryTitle callback w
        = callback None one (advance (Category_findOne categoryTitle) (store w) w))
    /\ (forall R (callback : option error -> option (list CategoryDoc) -> Async R),
          getCategories callback w
          = callback None (Some all) (advance Category_find (store w) w))
    /\ match one, List.find (fun c => String.eqb (title c) categoryTitle)
                            (db_categories (store w)) with
       | Some cd, Some c => category_view (store w) cd c
       | None, None => True
       | _, _ => False
       end
    /\ (exists cs, Permutation cs (db_categories (store w))
                   /\ Sorted title_asc cs
                   /\ Forall2 (category_view (store w)) all cs).
Proof.
  intros H0.
  eexists _, _. split; [|split; [|split]].
  - intros R callback. unfold getCategory.
    erewrite bind_eq by (now apply roundtrip_ok). reflexivity.
  - intros R callback. unfold getCategories.
    erewrite bind_eq by (now apply roundtrip_ok). reflexivity.
  - match goal with
    | |- context [List.find ?f ?l] => destruct (List.find f l) as [c|]
    end; simpl; [|exact I].
    apply populate_freelancers_view.
  - exists (merge_sort title_asc (db_categories (store w))).
    split; [apply merge_sort_Permutation|].
    split; [apply Sorted_merge_sort; apply _|].
    induction (merge_sort title_asc (db_categories (store w))) as [|c cs IH];
      constructor; [|exact IH].
    apply populate_freelancers_view.
Qed.

Lemma availability_filter_witness :
  exists (one : option CategoryDoc) (all : list CategoryDoc),
    (forall R (callback : option error -> option CategoryDoc -> Async R),
        getCategory "Web" callback (world_of store0 [])
        = callback None one
            (advance (Category_findOne "Web") (store (world_of store0 [])) (world_of store0 [])))
    /\ (forall R (callback : option error -> option (list CategoryDoc) -> Async R),
          getCategories callback (world_of store0 [])
          = callback None (Some all)
              (advance Category_find (store (world_of store0 [])) (world_of store0 [])))
    /\ match one, List.find (fun c => String.eqb (title c) "Web")
                            (db_categories (store (world_of store0 []))) with
       | Some cd, Some c => category_view (store (world_of store0 [])) cd c
       | None, None => True
       | _, _ => False
       end
    /\ (exists cs, Permutation cs (db_categories (store (world_of store0 [])))
                   /\ Sorted title_asc cs
                   /\ Forall2 (category_view (store (world_of store0 []))) all cs).
Proof. apply (availability_filter (world_of store0 []) "Web"). reflexivity. Defined.

(** The example of the specification: of Amy, Ben (busy), Cid (no bio) and
    Dan, the category lists Dan and Amy, in that order. *)
Example getCategory_example :
  fst (getCategory "Web" report2 (world_of store0 []))
  = Returned (None, Some (mkCategory "c1" "Web" [dan; amy])).
Proof. reflexivity. Qed.

(** ** Lookups that find nothing *)

(** No category with the given [_id]: whatever the user lookup found, the
    chain stops in the empty [else] branch and the callback is never
    called. *)
Lemma toggleCategoryForUser_no_category {R} chatId cid0
    (callback : option error -> option UserDoc -> bool -> Async R) w :
  succeeds 0 w -> succeeds 1 w ->
  the_category cid0 (store w) = None ->
  toggleCategoryForUser chatId cid0 callback w
  = (NeverCalled,
     advance (Category_findById cid0) (store w) (advance User_findOne (store w) w)).
Proof.
  intros H0 H1 Hc. rewrite toggleCategoryForUser_run by assumption.
  cbv zeta. now rewrite Hc.
Qed.

(** No user with the given chat id: the category is looked up all the same,
    and when it exists the scan of [user.categories] raises a TypeError. *)
Lemma toggleCategoryForUser_no_user {R} chatId cid0
    (callback : option error -> option UserDoc -> bool -> Async R) w c :
  succeeds 0 w -> succeeds 1 w ->
  the_user chatId (store w) = None ->
  the_category cid0 (store w) = Some c ->
  toggleCategoryForUser chatId cid0 callback w
  = (Thrown TypeError,
     advance (Category_findById cid0) (store w) (advance User_findOne (store w) w)).
Proof.
  intros H0 H1 Hu Hc. rewrite toggleCategoryForUser_run by assumption.
  cbv zeta. now rewrite Hc, Hu.
Qed.

(** C4.  In the example store, toggling for user 101 and the unknown
    category "c9" never calls the callback; toggling for the unknown user
    999 and the category "c1" looks the category up nevertheless and ends in
    a TypeError outside the callback; with both unknown the callback is
    never called either.  In none of the three cases does the caller receive
    a "not found". *)
Theorem toggle_not_found_is_not_reported :
  toggleCategoryForUser 101 "c9" report3 (world_of store0 [])
  = (NeverCalled,
     mkWorld store0 [] tally 0 [User_findOne; Category_findById "c9"])
  /\ toggleCategoryForUser 999 "c1" report3 (world_of store0 [])
     = (Thrown TypeError,
        mkWorld store0 [] tally 0 [User_findOne; Category_findById "c1"])
  /\ toggleCategoryForUser 999 "c9" report3 (world_of store0 [])
     = (NeverCalled,
        mkWorld store0 [] tally 0 [User_findOne; Category_findById "c9"]).
Proof. repeat split. Qed.

(** ** The two writes *)

(** C5.  In the example store, toggling Amy into the category Art:
    when the write of the user fails and the write of the category succeeds,
    the callback is called with no error, no user and added = true, and the
    store holds the link on the category's side only; when the write of the
    user succeeds and the write of the category fails, the callback is never
    called and the store holds the link on the user's side only.  In both
    runs the user is saved before the category. *)
Theorem toggle_write_failures_are_not_reported :
  (exists w',
      toggleCategoryForUser 101 "c2" report3 (world_of store0 [false; false; true; false])
      = (Returned (None, None, true), w')
      /\ (categories <$> the_user 101 (store w')) = Some ["c1"]
      /\ (freelancers <$> the_category "c2" (store w')) = Some ["u1"]
      /\ exists d1 d2,
           trace w' = [User_findOne; Category_findById "c2"; User_save d1; Category_save d2])
  /\ (exists w',
        toggleCategoryForUser 101 "c2" report3 (world_of store0 [false; false; false; true])
        = (NeverCalled, w')
        /\ (categories <$> the_user 101 (store w')) = Some ["c1"; "c2"]
        /\ (freelancers <$> the_category "c2" (store w')) = Some []
        /\ exists d1 d2,
             trace w' = [User_findOne; Category_findById "c2"; User_save d1; Category_save d2]).
Proof.
  split.
  - exists (snd (toggleCategoryForUser 101 "c2" report3
                   (world_of store0 [false; false; true; false]))).
    split; [vm_compute; reflexivity|].
    split; [vm_compute; reflexivity|].
    split; [vm_compute; reflexivity|].
    vm_compute. eexists _, _. reflexivity.
  - exists (snd (toggleCategoryForUser 101 "c2" report3
                   (world_of store0 [false; false; false; true]))).
    split; [vm_compute; reflexivity|].
    split; [vm_compute; reflexivity|].
    split; [vm_compute; reflexivity|].
    vm_compute. eexists _, _. reflexivity.
Qed.

(** ** Availability of a user *)

Lemma toggleUserAvailability_flips {R} chatId
    (callback : option error -> option UserDoc -> Async R) w u :
  succeeds 0 w -> succeeds 1 w ->
  the_user chatId (store w) = Some u ->
  exists (u' : UserDoc) (w' : World),
    toggleUserAvailability chatId callback w = callback None (Some u') w'
    /\ u' = set_busy (negb (busy u)) (populate_user (store w) u)
    /\ the_user chatId (store w') = Some (depopulate_user u')
    /\ busy (depopulate_user u') = negb (busy u).
Proof.
  intros H0 H1 Hu. unfold toggleUserAvailability.
  rewrite findUser_run by assumption. unfold the_user in Hu. rewrite Hu.
  cbn [fmap option_fmap option_map]. cbv beta iota zeta.
  match goal with
  | |- context [bind (save_user ?d) _ ?w1] => pose proof (save_user_run d w1) as Hs
  end.
  rewrite nth_faults_advance in Hs. unfold succeeds in H1. rewrite H1 in Hs.
  erewrite bind_eq by exact Hs.
  eexists _, _. split; [reflexivity|]. split; [reflexivity|]. split; [|reflexivity].
  unfold the_user. simpl. apply (find_test_update _ u); [exact Hu | reflexivity |].
  apply find_some in Hu as [_ Hu]. exact Hu.
Qed.

Lemma toggleUserAvailability_no_user {R} chatId
    (callback : option error -> option UserDoc -> Async R) w :
  succeeds 0 w ->
  the_user chatId (store w) = None ->
  toggleUserAvailability chatId callback w
  = (Thrown TypeError, advance User_findOne (store w) w).
Proof.
  intros H0 Hu. unfold toggleUserAvailability.
  rewrite findUser_run by assumption. unfold the_user in Hu. now rewrite Hu.
Qed.

(** C9.  In the example store no user has the chat id 999:
    [toggleUserAvailability] then ends in a TypeError raised inside the
    promise handler, the callback is never called, and nothing is written.
    (For the chat id 101 the user is looked up, [busy] is flipped and the
    user saved.) *)
Theorem toggleUserAvailability_unknown_user_is_not_reported :
  toggleUserAvailability 999 report2 (world_of store0 [])
  = (Thrown TypeError, mkWorld store0 [] tally 0 [User_findOne])
  /\ exists u' w',
       toggleUserAvailability 101 report2 (world_of store0 [])
       = (Returned (None, Some u'), w')
       /\ (busy <$> the_user 101 (store w')) = Some true.
Proof.
  split; [vm_compute; reflexivity|].
  exists (set_busy true (populate_user store0 amy)),
         (snd (toggleUserAvailability 101 report2 (world_of store0 []))).
  split; vm_compute; reflexivity.
Qed.

(** ** What the toggle leaves alone *)

Lemma toggle_membership_frame (c : CategoryRec) (user : UserDoc) :
  let '(user', c', _) := toggle_membership c user in
  user' = set_categories (categories user') user
  /\ c' = set_freelancers (freelancers c') c.
Proof.
  unfold toggle_membership.
  destruct (_ <? 0)%Z; [split; reflexivity|].
  destruct (_ >? -1)%Z; split; try reflexivity.
  now destruct c.
Qed.

(** C10.  When the user and the category are both loaded, the toggle issues
    exactly two saves, of a user document and a category document that
    differ from the loaded ones in [categories] and in [freelancers] only,
    whatever the store answers to the saves. *)
Theorem toggle_frame chatId cid0 w u c :
  succeeds 0 w -> succeeds 1 w ->
  the_user chatId (store w) = Some u ->
  the_category cid0 (store w) = Some c ->
  exists (u' : UserDoc) (c' : CategoryRec) (added : bool) (w' : World),
    (forall R (callback : option error -> option UserDoc -> bool -> Async R),
        toggleCategoryForUser chatId cid0 callback w
        = if nth 3 (faults w) false then (NeverCalled, w')
          else callback None (if nth 2 (faults w) false then None else Some u') added w')
    /\ trace w' = (trace w ++ [User_findOne; Category_findById cid0;
                               User_save u'; Category_save c'])%list
    /\ u' = set_categories (categories u') (populate_user (store w) u)
    /\ c' = set_freelancers (freelancers c') c.
Proof.
  intros H0 H1 Hu Hc.
  pose proof (toggle_membership_frame c (populate_user (store w) u)) as Hfr.
  destruct (toggle_membership c (populate_user (store w) u)) as [[u' c'] index] eqn:Htm.
  destruct Hfr as [Hfu Hfc].
  eexists u', c', (index <? 0)%Z, _. split; [|split; [|split; assumption]].
  - intros R callback. rewrite toggleCategoryForUser_run by assumption.
    cbv zeta. rewrite Hc, Hu. simpl fmap.
    rewrite findCategoryCallback_run, Htm. cbv zeta.
    repeat rewrite nth_faults_advance. reflexivity.
  - unfold advance. simpl. repeat rewrite <- app_assoc. reflexivity.
Qed.

Lemma toggle_frame_witness :
  exists (u' : UserDoc) (c' : CategoryRec) (added : bool) (w' : World),
    (forall R (callback : option error -> option UserDoc -> bool -> Async R),
        toggleCategoryForUser 101 "c1" callback (world_of store0 [])
        = if nth 3 (faults (world_of store0 [])) false then (NeverCalled, w')
          else callback None
                 (if nth 2 (faults (world_of store0 [])) false then None else Some u')
                 added w')
    /\ trace w' = (trace (world_of store0 [])
                   ++ [User_findOne; Category_findById "c1";
                       User_save u'; Category_save c'])%list
    /\ u' = set_categories (categories u') (populate_user (store (world_of store0 [])) amy)
    /\ c' = set_freelancers (freelancers c') cat_web.
Proof.
  apply (toggle_frame 101 "c1" (world_of store0 []) amy cat_web); reflexivity.
Defined.

(** ** Creation of users *)

Lemma emit_run e w : emit e w = (tt, logged e w).
Proof. reflexivity. Qed.

Lemma fresh_oid_run w : fresh_oid w = (new_oid w (oid_count w), oid_taken w).
Proof. reflexivity. Qed.

Lemma store_logged e w : store (logged e w) = store w.
Proof. reflexivity. Qed.

Lemma addUser_existing {R} (user : Candidate)
    (callback : option error -> option UserDocument -> Async R) w u :
  succeeds 0 w ->
  the_user (c_id user) (store w) = Some u ->
  addUser user callback w
  = callback None (Some (Populated (populate_user (store w) u)))
      (advance User_findOne (store w) (logged (console_log_user user) w)).
Proof.
  intros H0 Hu. unfold addUser.
  erewrite bind_eq by apply emit_run.
  rewrite findUser_run by exact H0.
  rewrite store_logged. unfold the_user in Hu. now rewrite Hu.
Qed.

Lemma addUser_new {R} (user : Candidate)
    (callback : option error -> option UserDocument -> Async R) w :
  succeeds 0 w -> succeeds 1 w ->
  the_user (c_id user) (store w) = None ->
  find_by_id (new_oid w (oid_count w)) (db_users (store w)) = None ->
  addUser user callback w
  = callback None (Some (Plain (new_User (new_oid w (oid_count w)) user)))
      (advance (User_insert (new_User (new_oid w (oid_count w)) user))
         (with_users (db_users (store w) ++ [new_User (new_oid w (oid_count w)) user])
                     (store w))
         (oid_taken (advance User_findOne (store w) (logged (console_log_user user) w)))).
Proof.
  intros H0 H1 Hu Hfresh. unfold addUser.
  erewrite bind_eq by apply emit_run.
  rewrite findUser_run by exact H0.
  rewrite store_logged. unfold the_user in Hu. rewrite Hu.
  cbn [fmap option_fmap option_map]. cbv beta iota.
  erewrite bind_eq by apply fresh_oid_run.
  unfold insert_user.
  erewrite bind_eq.
  2:{ apply roundtrip_ok.
      - unfold succeeds in *. simpl. destruct (faults w) as [|f fs]; [reflexivity|exact H1].
      - cbv beta.
        match goal with
        | |- match ?t with _ => _ end = _ =>
            change t with (find_by_id (new_oid w (oid_count w)) (db_users (store w)))
        end.
        rewrite Hfresh. reflexivity. }
  reflexivity.
Qed.

Lemma filter_none {A} (test : A -> bool) l : List.find test l = None -> List.filter test l = [].
Proof.
  induction l as [|x l IH]; simpl; [reflexivity|].
  destruct (test x); [discriminate | exact IH].
Qed.

Lemma find_app_None {A} (test : A -> bool) l x :
  List.find test l = None -> test x = true -> List.find test (l ++ [x]) = Some x.
Proof.
  induction l as [|y l IH]; simpl; intros Hl Hx.
  - now rewrite Hx.
  - destruct (test y); [discriminate | now apply IH].
Qed.

(** C6.  With no store failure: when a user with the candidate's [id] is
    stored, [addUser] hands that user (populated) to the callback and the
    store is unchanged; when none is stored and the identifier of the new
    document is free, a user built from the candidate is appended and handed
    to the callback, a second [addUser] with the same [id] (any other
    fields) hands the first one's document back and leaves the store alone,
    and the store holds exactly one user with that [id]. *)
Theorem addUser_idempotent (user again : Candidate) (w : World) :
  faults w = [] ->
  c_id again = c_id user ->
  (forall u, the_user (c_id user) (store w) = Some u ->
     exists w',
       (forall R (callback : option error -> option UserDocument -> Async R),
           addUser user callback w
           = callback None (Some (Populated (populate_user (store w) u))) w')
       /\ store w' = store w)
  /\ (the_user (c_id user) (store w) = None ->
      find_by_id (new_oid w (oid_count w)) (db_users (store w)) = None ->
      exists (d : UserRec) (w1 w2 : World),
        d = new_User (new_oid w (oid_count w)) user
        /\ (forall R (callback : option error -> option UserDocument -> Async R),
              addUser user callback w = callback None (Some (Plain d)) w1)
        /\ db_users (store w1) = (db_users (store w) ++ [d])%list
        /\ (forall R (callback : option error -> option UserDocument -> Async R),
              addUser again callback w1
              = callback None (Some (Populated (populate_user (store w1) d))) w2)
        /\ store w2 = store w1
        /\ List.filter (by_chat_id (c_id user)) (db_users (store w2)) = [d]).
Proof.
  intros Hf Hid. split.
  - intros u Hu. eexists. split.
    + intros R callback. apply addUser_existing; [now apply succeeds_nil | exact Hu].
    + reflexivity.
  - intros Hu Hfresh.
    set (d := new_User (new_oid w (oid_count w)) user).
    assert (by_chat_id (c_id user) d = true) as Hd.
    { unfold by_chat_id, d. simpl. apply Z.eqb_refl. }
    eexists d, _, _. split; [reflexivity|]. split; [|split; [|split; [|split]]].
    + intros R callback. apply addUser_new; try assumption; now apply succeeds_nil.
    + reflexivity.
    + intros R callback. apply addUser_existing.
      * apply succeeds_nil. simpl. now rewrite Hf.
      * rewrite Hid. unfold the_user. simpl. now apply find_app_None.
    + reflexivity.
    + change (List.filter (by_chat_id (c_id user)) (db_users (store w) ++ [d]) = [d]).
      rewrite List.filter_app, filter_none by exact Hu.
      cbn [List.filter app]. now rewrite Hd.
Qed.

Lemma addUser_idempotent_witness :
  (exists w',
      (forall R (callback : option error -> option UserDocument -> Async R),
          addUser (mkCandidate 101 "Amy A." true None None [] [] None) callback
                  (world_of store0 [])
          = callback None (Some (Populated (populate_user store0 amy))) w')
      /\ store w' = store0)
  /\ (exists (d : UserRec) (w1 w2 : World),
        d = new_User "n" eve
        /\ (forall R (callback : option error -> option UserDocument -> Async R),
              addUser eve callback (world_of store0 []) = callback None (Some (Plain d)) w1)
        /\ db_users (store w1) = (db_users store0 ++ [d])%list
        /\ (forall R (callback : option error -> option UserDocument -> Async R),
              addUser eve_again callback w1
              = callback None (Some (Populated (populate_user (store w1) d))) w2)
        /\ store w2 = store w1
        /\ List.filter (by_chat_id 105) (db_users (store w2)) = [d]).
Proof.
  split.
  - apply (proj1 (addUser_idempotent (mkCandidate 101 "Amy A." true None None [] [] None)
                    (mkCandidate 101 "Amy A." true None None [] [] None)
                    (world_of store0 []) eq_refl eq_refl) amy).
    reflexivity.
  - apply (proj2 (addUser_idempotent eve eve_again (world_of store0 []) eq_refl eq_refl)).
    + reflexivity.
    + reflexivity.
Defined.

(** ** Matching freelancers to a job *)

Lemma q_job job u :
  q_and [q_categories (category job); q_busy false; q_bio_exists; q_hourly_rate_exists;
         q_id_nin (notInterestedCandidates job)] u = true
  <-> In (category job) (categories u) /\ available u
      /\ ~ In (_id u) (notInterestedCandidates job).
Proof.
  rewrite <- q_available, <- oid_in_In, <- oid_in_false.
  unfold q_and, q_categories, q_id_nin. simpl.
  rewrite !andb_true_r, !andb_true_iff, negb_true_iff. tauto.
Qed.

Lemma filter_sublist {A} (test : A -> bool) (l : list A) : sublist (List.filter test l) l.
Proof.
  induction l as [|x l IH]; simpl; [constructor|].
  destruct (test x); now constructor.
Qed.

(** C7.  When the store answers, [freelancersForJob] hands the callback
    exactly the stored users whose categories hold the job's category, that
    are available, and that are not among the job's not-interested
    candidates; they come in the order of the store, and that need not be
    the descending order of names (job "j2" of the examples yields Amy
    before Dan). *)
Theorem freelancersForJob_matches (job : Job) (w : World) :
  succeeds 0 w ->
  exists users : list UserRec,
    (forall R (callback : list UserRec -> Async R),
        freelancersForJob job callback w
        = callback users (advance (User_find job) (store w) w))
    /\ (forall u, In u users <->
                  In u (db_users (store w))
                  /\ In (category job) (categories u)
                  /\ available u
                  /\ ~ In (_id u) (notInterestedCandidates job))
    /\ sublist users (db_users (store w))
    /\ (fst (freelancersForJob job2 report1 (world_of store0 [])) = Returned [amy; dan]
        /\ ~ Sorted name_desc [amy; dan]).
Proof.
  intros H0. eexists. split; [|split; [|split; [|split]]].
  - intros R callback. unfold freelancersForJob.
    erewrite bind_eq by (now apply roundtrip_ok). reflexivity.
  - intros u. rewrite filter_In, q_job. tauto.
  - apply filter_sublist.
  - reflexivity.
  - intros Hs. apply Sorted_inv in Hs as [_ Hh]. apply HdRel_inv in Hh.
    unfold name_desc in Hh. simpl in Hh. discriminate Hh.
Qed.

(** The example of the specification: Dan is not interested in job "j1";
    of the users of its category only Amy is available besides. *)
Lemma freelancersForJob_matches_witness :
  exists users : list UserRec,
    (forall R (callback : list UserRec -> Async R),
        freelancersForJob job1 callback (world_of store0 [])
        = callback users (advance (User_find job1) store0 (world_of store0 [])))
    /\ (forall u, In u users <->
                  In u (db_users store0)
                  /\ In (category job1) (categories u)
                  /\ available u
                  /\ ~ In (_id u) (notInterestedCandidates job1))
    /\ sublist users (db_users store0)
    /\ (fst (freelancersForJob job2 report1 (world_of store0 [])) = Returned [amy; dan]
        /\ ~ Sorted name_desc [amy; dan]).
Proof. apply (freelancersForJob_matches job1 (world_of store0 [])). reflexivity. Defined.

Example freelancersForJob_example :
  fst (freelancersForJob job1 report1 (world_of store0 [])) = Returned [amy].
Proof. reflexivity. Qed.

(** ** Matching by job id *)

Lemma freelancersForJobId_run {R} jobId (callback : option (list UserRec) -> Async R) w :
  succeeds 0 w ->
  freelancersForJobId jobId callback w
  = match find_by_id jobId (db_jobs (store w)) with
    | Some job =>
        freelancersForJob job (fun users => callback (Some users))
                          (advance (Job_findById jobId) (store w) w)
    | None => callback None (advance (Job_findById jobId) (store w) w)
    end.
Proof.
  intros H0. unfold freelancersForJobId, findJobById, Job_findById_exec.
  erewrite bind_eq by (now apply roundtrip_ok).
  destruct (find_by_id jobId (db_jobs (store w))); reflexivity.
Qed.

(** Whatever the store answers, a run of [freelancersForJobId] with a
    recording callback ends with the callback called or never called; no
    exception escapes, and the callback has no error argument. *)
Lemma freelancersForJobId_never_throws jobId w e :
  fst (freelancersForJobId jobId report1 w) <> Thrown e.
Proof.
  unfold freelancersForJobId, findJobById, Job_findById_exec.
  destruct (nth 0 (faults w) false) eqn:F0.
  - erewrite bind_eq by (now apply roundtrip_fault). discriminate.
  - erewrite bind_eq by (now apply roundtrip_ok).
    destruct (find_by_id jobId (db_jobs (store w))) as [job|]; [|discriminate].
    unfold freelancersForJob.
    match goal with
    | |- context [bind (roundtrip ?ev ?op) _ ?w1] =>
        destruct (nth 0 (faults w1) false) eqn:F1;
        [ erewrite bind_eq by (now apply (roundtrip_fault ev op w1))
        | erewrite bind_eq by (now apply (roundtrip_ok ev op w1)) ]
    end; discriminate.
Qed.

(** C8.  When the lookup of the job is answered: for an id that resolves to
    no job the callback receives null; for an id that resolves the work is
    handed to [freelancersForJob] with that job.  No run raises an
    exception. *)
Theorem freelancersForJobId_unknown (jobId : ObjectId) (w : World) :
  succeeds 0 w ->
  (find_by_id jobId (db_jobs (store w)) = None ->
   forall R (callback : option (list UserRec) -> Async R),
     freelancersForJobId jobId callback w
     = callback None (advance (Job_findById jobId) (store w) w))
  /\ (forall job, find_by_id jobId (db_jobs (store w)) = Some job ->
      forall R (callback : option (list UserRec) -> Async R),
        freelancersForJobId jobId callback w
        = freelancersForJob job (fun users => callback (Some users))
            (advance (Job_findById jobId) (store w) w))
  /\ (forall e, fst (freelancersForJobId jobId report1 w) <> Thrown e).
Proof.
  intros H0. split; [|split].
  - intros Hj R callback. rewrite freelancersForJobId_run by assumption. now rewrite Hj.
  - intros job Hj R callback. rewrite freelancersForJobId_run by assumption. now rewrite Hj.
  - intros e. apply freelancersForJobId_never_throws.
Qed.

Lemma freelancersForJobId_unknown_witness :
  (forall R (callback : option (list UserRec) -> Async R),
      freelancersForJobId "j9" callback (world_of store0 [])
      = callback None (advance (Job_findById "j9") store0 (world_of store0 [])))
  /\ (forall R (callback : option (list UserRec) -> Async R),
        freelancersForJobId "j1" callback (world_of store0 [])
        = freelancersForJob job1 (fun users => callback (Some users))
            (advance (Job_findById "j1") store0 (world_of store0 []))).
Proof.
  split.
  - apply (proj1 (freelancersForJobId_unknown "j9" (world_of store0 []) eq_refl)).
    reflexivity.
  - apply (proj1 (proj2 (freelancersForJobId_unknown "j1" (world_of store0 []) eq_refl))
             job1).
    reflexivity.
Defined.

Example freelancersForJobId_example :
  fst (freelancersForJobId "j9" report1 (world_of store0 [])) = Returned None
  /\ fst (freelancersForJobId "j1" report1 (world_of store0 [])) = Returned (Some [amy]).
Proof. split; reflexivity. Qed.

(** * Further properties of the module *)

(** ** The scanning loops *)

Lemma scan_first_from {A} (test : A -> bool) (l : list A) (i : Z) :
  (scan test l i = -1 /\ Forall (fun x => test x = false) l)
  \/ (exists l1 x l2,
         l = (l1 ++ x :: l2)%list
         /\ Forall (fun y => test y = false) l1
         /\ test x = true
         /\ scan test l i = i + Z.of_nat (length l1)).
Proof.
  revert i. induction l as [|y l IH]; intros i; simpl.
  - left. split; [reflexivity | constructor].
  - destruct (test y) eqn:E.
    + right. exists [], y, l. simpl. repeat split; [constructor | assumption | lia].
    + destruct (IH (i + 1)) as [[Hs Hall] | (l1 & x & l2 & -> & Hall & Hx & Hs)].
      * left. split; [assumption | now constructor].
      * right. exists (y :: l1), x, l2. simpl length.
        repeat split; [now constructor | assumption | lia].
Qed.

(** X1.  Each of the two loops of [findCategoryCallback] yields -1 when no
    entry passes its test, and otherwise the position of the first entry
    that passes: all entries before it fail the test. *)
Theorem scan_first_match {A} (test : A -> bool) (l : list A) :
  (scan test l 0 = -1 /\ Forall (fun x => test x = false) l)
  \/ (exists l1 x l2,
         l = (l1 ++ x :: l2)%list
         /\ Forall (fun y => test y = false) l1
         /\ test x = true
         /\ scan test l 0 = Z.of_nat (length l1)).
Proof. exact (scan_first_from test l 0). Qed.

(** ** More on the toggle *)

(** X2.  Whatever the state of the two arrays (duplicates, one-sided
    links), an undisturbed toggle for a user and a category that resolve
    reports added = true exactly when the category is not among the user's
    categories; it then adds one entry on each side, and otherwise takes
    one entry away on each side (none from the category when it has none
    for the user). *)
Theorem toggle_changes_one_entry_each chatId cid0 w u c :
  faults w = [] ->
  the_user chatId (store w) = Some u ->
  the_category cid0 (store w) = Some c ->
  exists (added : bool) (d : UserDoc) (u1 : UserRec) (c1 : CategoryRec) (w' : World),
    (forall R (callback : option error -> option UserDoc -> bool -> Async R),
        toggleCategoryForUser chatId cid0 callback w = callback None (Some d) added w')
    /\ (added = true <-> ~ In cid0 (categories u))
    /\ the_user chatId (store w') = Some u1
    /\ the_category cid0 (store w') = Some c1
    /\ (if added
        then occ cid0 (categories u1) = S (occ cid0 (categories u))
             /\ occ (_id u) (freelancers c1) = S (occ (_id u) (freelancers c))
        else S (occ cid0 (categories u1)) = occ cid0 (categories u)
             /\ occ (_id u) (freelancers c1) = pred (occ (_id u) (freelancers c))).
Proof.
  intros Hf Hu Hc.
  destruct (toggle_counts chatId cid0 w u c Hf Hu Hc)
    as (d & u1 & c1 & w' & Hrun & _ & Hu1 & Hc1 & _ & HU & HC).
  exists (negb (oid_in cid0 (categories u))), d, u1, c1, w'.
  split; [exact Hrun|]. split; [|split; [exact Hu1|split; [exact Hc1|]]].
  - rewrite negb_true_iff. apply oid_in_false.
  - destruct (oid_in cid0 (categories u)) eqn:E; simpl; split; try assumption.
    apply occ_pos in E. lia.
Qed.

(** Amy is in the category Web on both sides: the toggle takes her out. *)
Lemma toggle_changes_one_entry_each_witness :
  exists (added : bool) (d : UserDoc) (u1 : UserRec) (c1 : CategoryRec) (w' : World),
    (forall R (callback : option error -> option UserDoc -> bool -> Async R),
        toggleCategoryForUser 101 "c1" callback (world_of store0 [])
        = callback None (Some d) added w')
    /\ (added = true <-> ~ In "c1" (categories amy))
    /\ the_user 101 (store w') = Some u1
    /\ the_category "c1" (store w') = Some c1
    /\ (if added
        then occ "c1" (categories u1) = S (occ "c1" (categories amy))
             /\ occ (_id amy) (freelancers c1) = S (occ (_id amy) (freelancers cat_web))
        else S (occ "c1" (categories u1)) = occ "c1" (categories amy)
             /\ occ (_id amy) (freelancers c1) = pred (occ (_id amy) (freelancers cat_web))).
Proof.
  apply (toggle_changes_one_entry_each 101 "c1" (world_of store0 []) amy cat_web);
    reflexivity.
Defined.

Lemma update_by_id_ids {D} `{Document D} (d : D) (l : list D) :
  _id <$> update_by_id d l = _id <$> l.
Proof.
  induction l as [|x l IH]; simpl; [reflexivity|].
  destruct (oid_eqb (_id x) (_id d)) eqn:E; simpl.
  - apply oid_eqb_eq in E. now rewrite E.
  - f_equal. exact IH.
Qed.

Lemma toggle_membership_ids (c : CategoryRec) (user : UserDoc) :
  _id (toggle_membership c user).1.1 = _id user
  /\ _id (toggle_membership c user).1.2 = _id c.
Proof.
  pose proof (toggle_membership_frame c user) as Hfr.
  destruct (toggle_membership c user) as [[u' c'] index]. destruct Hfr as [-> ->].
  split; reflexivity.
Qed.

(** X3.  Whatever the store answers to its four round trips, the toggle
    neither creates nor deletes a document: the identifiers of the stored
    users and of the stored categories are the same before and after, in
    the same order, and the jobs are untouched. *)
Theorem toggle_keeps_documents chatId cid0 (w : World) :
  _id <$> db_users (store (snd (toggleCategoryForUser chatId cid0 report3 w)))
  = _id <$> db_users (store w)
  /\ _id <$> db_categories (store (snd (toggleCategoryForUser chatId cid0 report3 w)))
     = _id <$> db_categories (store w)
  /\ db_jobs (store (snd (toggleCategoryForUser chatId cid0 report3 w)))
     = db_jobs (store w).
Proof.
  destruct (nth 0 (faults w) false) eqn:F0.
  { unfold toggleCategoryForUser. rewrite findUser_fault by assumption.
    repeat split. }
  destruct (nth 1 (faults w) false) eqn:F1.
  { unfold toggleCategoryForUser. rewrite findUser_run by assumption.
    unfold Category_findById_exec.
    erewrite bind_eq by (apply roundtrip_fault; now rewrite nth_faults_advance).
    repeat split. }
  rewrite toggleCategoryForUser_run by assumption. cbv zeta.
  destruct (the_category cid0 (store w)) as [c|]; [|repeat split].
  destruct (the_user chatId (store w)) as [u|]; [|repeat split].
  cbn [fmap option_fmap option_map].
  rewrite findCategoryCallback_run.
  pose proof (toggle_membership_ids c (populate_user (store w) u)) as [Hiu Hic].
  destruct (toggle_membership c (populate_user (store w) u)) as [[u' c'] index].
  cbn [fst snd] in Hiu, Hic. cbv zeta.
  repeat rewrite nth_faults_advance.
  destruct (nth 2 (faults w) false), (nth 3 (faults w) false);
    cbn [snd store advance with_users with_categories db_users db_categories db_jobs report3 ret];
    rewrite ?update_by_id_ids; repeat split.
Qed.

(** X4.  An undisturbed toggle for a user and a category that resolve
    leaves every other category and every user with another [_id] as they
    were. *)
Theorem toggle_leaves_others chatId cid0 w u c :
  faults w = [] ->
  the_user chatId (store w) = Some u ->
  the_category cid0 (store w) = Some c ->
  exists (d : UserDoc) (added : bool) (w' : World),
    (forall R (callback : option error -> option UserDoc -> bool -> Async R),
        toggleCategoryForUser chatId cid0 callback w = callback None (Some d) added w')
    /\ (forall x, x <> cid0 -> the_category x (store w') = the_category x (store w))
    /\ (forall x, x <> _id u ->
                  find_by_id x (db_users (store w')) = find_by_id x (db_users (store w))).
Proof.
  intros Hf Hu Hc.
  destruct (toggle_step chatId cid0 w u c Hf Hu Hc)
    as (u' & c' & w' & Hrun & _ & _ & _ & Hid & _ & Hc' & Hdbc & Hdbu).
  exists u', (negb (oid_in cid0 (categories u))), w'.
  split; [exact Hrun|]. split.
  - intros x Hx. unfold the_category. rewrite Hdbc. apply find_update_other.
    pose proof (find_by_id_id _ _ _ Hc) as Hcid.
    rewrite Hc'. change (x <> _id c). now rewrite Hcid.
  - intros x Hx. rewrite Hdbu. apply find_update_other. simpl.
    change (x <> _id u'). now rewrite Hid.
Qed.

Lemma toggle_leaves_others_witness :
  exists (d : UserDoc) (added : bool) (w' : World),
    (forall R (callback : option error -> option UserDoc -> bool -> Async R),
        toggleCategoryForUser 101 "c2" callback (world_of store0 [])
        = callback None (Some d) added w')
    /\ (forall x, x <> "c2" -> the_category x (store w') = the_category x store0)
    /\ (forall x, x <> _id amy ->
                  find_by_id x (db_users (store w')) = find_by_id x (db_users store0)).
Proof.
  apply (toggle_leaves_others 101 "c2" (world_of store0 []) amy cat_art); reflexivity.
Defined.

(** X5.  Errors of the two lookups of the toggle.  When the store fails on
    the user lookup, [findUser] rethrows: the category is not looked up,
    nothing is written and no callback runs.  When the store fails on the
    category lookup, the chain stops in the empty [if (err)] branch:
    nothing is written and the callback is never called. *)
Theorem toggle_lookup_errors chatId cid0 (w : World) :
  (nth 0 (faults w) false = true ->
   forall R (callback : option error -> option UserDoc -> bool -> Async R),
     toggleCategoryForUser chatId cid0 callback w
     = (Thrown (Rethrown StoreFailure), advance User_findOne (store w) w))
  /\ (succeeds 0 w -> nth 1 (faults w) false = true ->
      forall R (callback : option error -> option UserDoc -> bool -> Async R),
        toggleCategoryForUser chatId cid0 callback w
        = (NeverCalled,
           advance (Category_findById cid0) (store w) (advance User_findOne (store w) w))).
Proof.
  split.
  - intros F0 R callback. unfold toggleCategoryForUser. now apply findUser_fault.
  - intros H0 F1 R callback. unfold toggleCategoryForUser.
    rewrite findUser_run by assumption. unfold Category_findById_exec.
    erewrite bind_eq by (apply roundtrip_fault; now rewrite nth_faults_advance).
    reflexivity.
Qed.

Lemma toggle_lookup_errors_witness :
  (forall R (callback : option error -> option UserDoc -> bool -> Async R),
      toggleCategoryForUser 101 "c1" callback (world_of store0 [true])
      = (Thrown (Rethrown StoreFailure),
         advance User_findOne store0 (world_of store0 [true])))
  /\ (forall R (callback : option error -> option UserDoc -> bool -> Async R),
        toggleCategoryForUser 101 "c1" callback (world_of store0 [false; true])
        = (NeverCalled,
           advance (Category_findById "c1") store0
             (advance User_findOne store0 (world_of store0 [false; true])))).
Proof.
  split.
  - apply (proj1 (toggle_lookup_errors 101 "c1" (world_of store0 [true]))). reflexivity.
  - apply (proj2 (toggle_lookup_errors 101 "c1" (world_of store0 [false; true])));
      reflexivity.
Defined.

(** ** More on the availability of a user *)

Lemma toggleUserAvailability_step chatId w u :
  faults w = [] ->
  the_user chatId (store w) = Some u ->
  exists (d : UserDoc) (w' : World),
    (forall R (callback : option error -> option UserDoc -> Async R),
        toggleUserAvailability chatId callback w = callback None (Some d) w')
    /\ d = set_busy (negb (busy u)) (populate_user (store w) u)
    /\ faults w' = []
    /\ the_user chatId (store w') = Some (depopulate_user d)
    /\ db_categories (store w') = db_categories (store w)
    /\ db_jobs (store w') = db_jobs (store w).
Proof.
  intros Hf Hu.
  set (d := set_busy (negb (busy u)) (populate_user (store w) u)).
  exists d,
    (advance (User_save d)
       (with_users (update_by_id (depopulate_user d) (db_users (store w))) (store w))
       (advance User_findOne (store w) w)).
  split; [|split; [reflexivity|split; [|split; [|split; reflexivity]]]].
  - intros R callback. unfold toggleUserAvailability.
    rewrite findUser_run by (now apply succeeds_nil).
    unfold the_user in Hu. rewrite Hu.
    cbn [fmap option_fmap option_map]. cbv beta iota zeta. fold d.
    pose proof (save_user_run d (advance User_findOne (store w) w)) as Hs.
    rewrite nth_faults_advance, Hf in Hs. simpl nth in Hs.
    erewrite bind_eq by exact Hs. reflexivity.
  - now repeat apply faults_advance.
  - unfold the_user. simpl. apply (find_test_update _ u); [exact Hu | reflexivity |].
    apply find_some in Hu as [_ Hu]. exact Hu.
Qed.

(** X6.  Two undisturbed calls of [toggleUserAvailability] for a stored
    user hand the callback the user with [busy] flipped and then with
    [busy] as at the start; afterwards the stored user has its old [busy],
    [_id], [id], [name], [bio] and [hourly_rate], and categories and jobs
    are as before. *)
Theorem toggleUserAvailability_twice chatId w u :
  faults w = [] ->
  the_user chatId (store w) = Some u ->
  exists (d1 d2 : UserDoc) (w1 w2 : World) (u2 : UserRec),
    (forall R (callback : option error -> option UserDoc -> Async R),
        toggleUserAvailability chatId callback w = callback None (Some d1) w1)
    /\ busy d1 = negb (busy u)
    /\ (forall R (callback : option error -> option UserDoc -> Async R),
          toggleUserAvailability chatId callback w1 = callback None (Some d2) w2)
    /\ busy d2 = busy u
    /\ the_user chatId (store w2) = Some u2
    /\ (busy u2 = busy u /\ _id u2 = _id u /\ id u2 = id u /\ name u2 = name u
        /\ bio u2 = bio u /\ hourly_rate u2 = hourly_rate u)
    /\ db_categories (store w2) = db_categories (store w)
    /\ db_jobs (store w2) = db_jobs (store w).
Proof.
  intros Hf Hu.
  destruct (toggleUserAvailability_step chatId w u Hf Hu)
    as (d1 & w1 & Hrun1 & Hd1 & Hf1 & Hu1 & Hc1 & Hj1).
  destruct (toggleUserAvailability_step chatId w1 _ Hf1 Hu1)
    as (d2 & w2 & Hrun2 & Hd2 & Hf2 & Hu2 & Hc2 & Hj2).
  exists d1, d2, w1, w2, (depopulate_user d2).
  assert (busy d2 = busy u) as Hb.
  { rewrite Hd2, Hd1. simpl. apply negb_involutive. }
  split; [exact Hrun1|]. split; [now rewrite Hd1|].
  split; [exact Hrun2|]. split; [exact Hb|]. split; [exact Hu2|].
  split; [|split; congruence].
  split; [exact Hb|]. rewrite Hd2, Hd1. repeat split.
Qed.

Lemma toggleUserAvailability_twice_witness :
  exists (d1 d2 : UserDoc) (w1 w2 : World) (u2 : UserRec),
    (forall R (callback : option error -> option UserDoc -> Async R),
        toggleUserAvailability 102 callback (world_of store0 []) = callback None (Some d1) w1)
    /\ busy d1 = negb (busy ben)
    /\ (forall R (callback : option error -> option UserDoc -> Async R),
          toggleUserAvailability 102 callback w1 = callback None (Some d2) w2)
    /\ busy d2 = busy ben
    /\ the_user 102 (store w2) = Some u2
    /\ (busy u2 = busy ben /\ _id u2 = _id ben /\ id u2 = id ben /\ name u2 = name ben
        /\ bio u2 = bio ben /\ hourly_rate u2 = hourly_rate ben)
    /\ db_categories (store w2) = db_categories store0
    /\ db_jobs (store w2) = db_jobs store0.
Proof.
  apply (toggleUserAvailability_twice 102 (world_of store0 []) ben); reflexivity.
Defined.

(** X7.  When the save of [toggleUserAvailability] fails, the callback
    receives the error and no user, and the store is unchanged; when the
    lookup fails, the error is rethrown outside the callback. *)
Theorem toggleUserAvailability_errors chatId (w : World) :
  (nth 0 (faults w) false = true ->
   forall R (callback : option error -> option UserDoc -> Async R),
     toggleUserAvailability chatId callback w
     = (Thrown (Rethrown StoreFailure), advance User_findOne (store w) w))
  /\ (forall u, succeeds 0 w -> nth 1 (faults w) false = true ->
      the_user chatId (store w) = Some u ->
      forall R (callback : option error -> option UserDoc -> Async R),
        toggleUserAvailability chatId callback w
        = callback (Some StoreFailure) None
            (advance (User_save (set_busy (negb (busy u)) (populate_user (store w) u)))
               (store w) (advance User_findOne (store w) w))).
Proof.
  split.
  - intros F0 R callback. unfold toggleUserAvailability. now apply findUser_fault.
  - intros u H0 F1 Hu R callback. unfold toggleUserAvailability.
    rewrite findUser_run by assumption. unfold the_user in Hu. rewrite Hu.
    cbn [fmap option_fmap option_map]. cbv beta iota zeta.
    match goal with
    | |- context [bind (save_user ?d) _ ?w1] => pose proof (save_user_run d w1) as Hs
    end.
    rewrite nth_faults_advance, F1 in Hs.
    erewrite bind_eq by exact Hs. reflexivity.
Qed.

Lemma toggleUserAvailability_errors_witness :
  (forall R (callback : option error -> option UserDoc -> Async R),
      toggleUserAvailability 101 callback (world_of store0 [true])
      = (Thrown (Rethrown StoreFailure), advance User_findOne store0 (world_of store0 [true])))
  /\ (forall R (callback : option error -> option UserDoc -> Async R),
        toggleUserAvailability 101 callback (world_of store0 [false; true])
        = callback (Some StoreFailure) None
            (advance (User_save (set_busy (negb (busy amy)) (populate_user store0 amy)))
               store0 (advance User_findOne store0 (world_of store0 [false; true])))).
Proof.
  split.
  - apply (proj1 (toggleUserAvailability_errors 101 (world_of store0 [true]))). reflexivity.
  - apply (proj2 (toggleUserAvailability_errors 101 (world_of store0 [false; true])) amy);
      reflexivity.
Defined.

(** ** More on the creation of users *)

Lemma roundtrip_err {A} e (op : Store -> error + (A * Store)) w err :
  succeeds 0 w -> op (store w) = inl err ->
  roundtrip e op w = (inl err, advance e (store w) w).
Proof.
  unfold succeeds, roundtrip, bind, emit, fault, get_store, put_store, advance, ret.
  destruct w as [s fs g n t]; simpl. intros Hf Hop.
  destruct fs as [|f fs]; cbn in *; subst; cbn; rewrite Hop; reflexivity.
Qed.

Lemma roundtrip_read {A} e (f : Store -> A) w :
  roundtrip e (fun s => inr (f s, s)) w
  = (if nth 0 (faults w) false then inl StoreFailure else inr (f (store w)),
     advance e (store w) w).
Proof.
  destruct (nth 0 (faults w) false) eqn:F0.
  - now apply roundtrip_fault.
  - now apply roundtrip_ok.
Qed.

(** The four ways a call of [addUser] can go. *)
Lemma addUser_cases (user : Candidate) (w : World) :
  (nth 0 (faults w) false = true
   /\ fst (addUser user report2 w) = Thrown (Rethrown StoreFailure)
   /\ store (snd (addUser user report2 w)) = store w)
  \/ (exists u,
         the_user (c_id user) (store w) = Some u
         /\ fst (addUser user report2 w)
            = Returned (None, Some (Populated (populate_user (store w) u)))
         /\ store (snd (addUser user report2 w)) = store w)
  \/ (the_user (c_id user) (store w) = None
      /\ exists err,
           fst (addUser user report2 w) = Returned (Some err, None)
           /\ store (snd (addUser user report2 w)) = store w)
  \/ (the_user (c_id user) (store w) = None
      /\ exists d,
           fst (addUser user report2 w) = Returned (None, Some (Plain d))
           /\ d = new_User (new_oid w (oid_count w)) user
           /\ find_by_id (_id d) (db_users (store w)) = None
           /\ store (snd (addUser user report2 w))
              = with_users (db_users (store w) ++ [d]) (store w)).
Proof.
  unfold addUser. erewrite bind_eq by apply emit_run.
  destruct (nth 0 (faults w) false) eqn:F0.
  { left. rewrite findUser_fault by exact F0. repeat split. }
  right. rewrite findUser_run by exact F0. rewrite store_logged.
  fold (the_user (c_id user) (store w)).
  destruct (the_user (c_id user) (store w)) as [u|] eqn:Hu.
  { left. exists u. repeat split. }
  right. cbn [fmap option_fmap option_map]. cbv beta iota.
  erewrite bind_eq by apply fresh_oid_run. unfold insert_user.
  set (w3 := oid_taken (advance User_findOne (store w) (logged (console_log_user user) w))).
  set (d := new_User (new_oid w (oid_count w)) user).
  assert (nth 0 (faults w3) false = nth 1 (faults w) false) as Hn.
  { unfold w3. change (nth 0 (tail (faults w)) false = nth 1 (faults w) false).
    now destruct (faults w). }
  destruct (nth 1 (faults w) false) eqn:F1.
  { left. split; [reflexivity|]. exists StoreFailure.
    erewrite bind_eq by (now apply roundtrip_fault). repeat split. }
  destruct (find_by_id (_id d) (db_users (store w))) as [x|] eqn:Hfresh.
  { left. split; [reflexivity|]. exists (DuplicateKey (_id d)).
    erewrite bind_eq.
    2:{ apply (roundtrip_err _ _ w3 (DuplicateKey (_id d))); [exact Hn|].
        cbv beta.
        change (match find_by_id (_id d) (db_users (store w)) with
                | Some _ => inl (DuplicateKey (_id d))
                | None => inr (d, mkStore (db_users (store w) ++ [d])
                                          (db_categories (store w)) (db_jobs (store w)))
                end = @inl error (UserRec * Store) (DuplicateKey (_id d))).
        now rewrite Hfresh. }
    repeat split. }
  right. split; [reflexivity|]. exists d.
  erewrite bind_eq.
  2:{ apply (roundtrip_ok _ _ w3 d (with_users (db_users (store w) ++ [d]) (store w)));
        [exact Hn|].
      cbv beta.
      change (match find_by_id (_id d) (db_users (store w)) with
              | Some _ => inl (DuplicateKey (_id d))
              | None => inr (d, mkStore (db_users (store w) ++ [d])
                                        (db_categories (store w)) (db_jobs (store w)))
              end = inr (d, with_users (db_users (store w) ++ [d]) (store w))).
      now rewrite Hfresh. }
  repeat split; exact Hfresh.
Qed.

(** X8.  Whatever the store answers, a call of [addUser] goes one of four
    ways: the lookup fails and its error is rethrown outside the callback;
    a user with the candidate's [id] exists and is handed back; the save of
    the new user fails and the callback receives that error and no
    document; or the new user is handed back and appended to the
    collection.  Only the last changes the store, and the callback is never
    left out silently. *)
Theorem addUser_outcomes (user : Candidate) (w : World) :
  (nth 0 (faults w) false = true
   /\ fst (addUser user report2 w) = Thrown (Rethrown StoreFailure)
   /\ store (snd (addUser user report2 w)) = store w)
  \/ (exists u,
         the_user (c_id user) (store w) = Some u
         /\ fst (addUser user report2 w)
            = Returned (None, Some (Populated (populate_user (store w) u)))
         /\ store (snd (addUser user report2 w)) = store w)
  \/ (the_user (c_id user) (store w) = None
      /\ exists err,
           fst (addUser user report2 w) = Returned (Some err, None)
           /\ store (snd (addUser user report2 w)) = store w)
  \/ (the_user (c_id user) (store w) = None
      /\ exists d,
           fst (addUser user report2 w) = Returned (None, Some (Plain d))
           /\ d = new_User (new_oid w (oid_count w)) user
           /\ find_by_id (_id d) (db_users (store w)) = None
           /\ store (snd (addUser user report2 w))
              = with_users (db_users (store w) ++ [d]) (store w)).
Proof. exact (addUser_cases user w). Qed.

Lemma find_none_ids (chatId : Z) (l : list UserRec) :
  List.find (by_chat_id chatId) l = None -> ~ In chatId (id <$> l).
Proof.
  induction l as [|x l IH]; simpl; [tauto|].
  unfold by_chat_id at 1. destruct (Z.eqb_spec (id x) chatId) as [E|E]; [discriminate|].
  intros Hl [Hx|Hx]; [congruence | now apply IH].
Qed.

(** X9.  If no two stored users share an [id], none do after a call of
    [addUser], whatever the store answers: the new user is stored only
    when the lookup by [id] found nobody. *)
Theorem addUser_keeps_ids_unique (user : Candidate) (w : World) :
  NoDup (id <$> db_users (store w)) ->
  NoDup (id <$> db_users (store (snd (addUser user report2 w)))).
Proof.
  intros Hnd.
  destruct (addUser_cases user w)
    as [(_ & _ & ->) | [(u & _ & _ & ->) | [(_ & err & _ & ->) | (Hu & d & _ & Hd & _ & ->)]]];
    try assumption.
  simpl. rewrite fmap_app. apply NoDup_app. split; [assumption|]. split.
  - intros x Hx Hx'. apply list_elem_of_In in Hx, Hx'. simpl in Hx'.
    destruct Hx' as [<-|[]]. subst d. simpl in Hx.
    now apply (find_none_ids _ _ Hu).
  - apply NoDup_singleton.
Qed.

Lemma addUser_keeps_ids_unique_witness :
  NoDup (id <$> db_users (store (snd (addUser eve report2 (world_of store0 []))))).
Proof.
  apply (addUser_keeps_ids_unique eve (world_of store0 [])).
  apply (bool_decide_unpack _). vm_compute. exact I.
Defined.

(** ** Lookup by the store's identifier *)

Lemma findUserById_run {R} oid (callback : option UserDoc -> Async R) w :
  findUserById oid callback w
  = if nth 0 (faults w) false then (NeverCalled, advance User_findOne (store w) w)
    else callback (populate_user (store w) <$> find_by_id oid (db_users (store w)))
                  (advance User_findOne (store w) w).
Proof.
  unfold findUserById, User_findOne_populate.
  erewrite bind_eq by apply roundtrip_read.
  destruct (nth 0 (faults w) false); reflexivity.
Qed.

(** X10.  A user created by [addUser] is found again by [findUserById]
    under the [_id] it was given, populated. *)
Theorem addUser_then_findUserById (user : Candidate) (w : World) :
  faults w = [] ->
  the_user (c_id user) (store w) = None ->
  find_by_id (new_oid w (oid_count w)) (db_users (store w)) = None ->
  exists (d : UserRec) (w1 : World),
    (forall R (callback : option error -> option UserDocument -> Async R),
        addUser user callback w = callback None (Some (Plain d)) w1)
    /\ (forall R (callback : option UserDoc -> Async R),
          findUserById (_id d) callback w1
          = callback (Some (populate_user (store w1) d))
                     (advance User_findOne (store w1) w1)).
Proof.
  intros Hf Hu Hfresh. eexists _, _. split.
  - intros R callback. apply addUser_new; try assumption; now apply succeeds_nil.
  - intros R callback. rewrite findUserById_run.
    set (d := new_User (new_oid w (oid_count w)) user).
    match goal with
    | |- context [nth 0 (faults ?w1) false] =>
        assert (faults w1 = []) as Hf1 by (simpl; now rewrite Hf); rewrite Hf1
    end.
    simpl nth. cbv iota.
    match goal with
    | |- context [find_by_id (_id d) (db_users (store ?w1))] =>
        change (find_by_id (_id d) (db_users (store w1)))
          with (List.find (fun u : UserRec => oid_eqb (_id u) (_id d))
                          (db_users (store w) ++ [d]))
    end.
    rewrite (find_app_None _ _ d); [reflexivity | exact Hfresh | apply oid_eqb_refl].
Qed.

Lemma addUser_then_findUserById_witness :
  exists (d : UserRec) (w1 : World),
    (forall R (callback : option error -> option UserDocument -> Async R),
        addUser eve callback (world_of store0 []) = callback None (Some (Plain d)) w1)
    /\ (forall R (callback : option UserDoc -> Async R),
          findUserById (_id d) callback w1
          = callback (Some (populate_user (store w1) d))
                     (advance User_findOne (store w1) w1)).
Proof.
  apply (addUser_then_findUserById eve (world_of store0 [])); reflexivity.
Defined.

(** ** Reads *)

Lemma freelancersForJob_run {R} job (callback : list UserRec -> Async R) w :
  freelancersForJob job callback w
  = if nth 0 (faults w) false
    then (NeverCalled,
          logged (console_log_error (Rethrown StoreFailure))
                 (advance (User_find job) (store w) w))
    else callback
           (List.filter
              (q_and [q_categories (category job); q_busy false; q_bio_exists;
                      q_hourly_rate_exists; q_id_nin (notInterestedCandidates job)])
              (db_users (store w)))
           (advance (User_find job) (store w) w).
Proof.
  unfold freelancersForJob. erewrite bind_eq by apply roundtrip_read.
  destruct (nth 0 (faults w) false); reflexivity.
Qed.

Lemma getCategory_run {R} categoryTitle
    (callback : option error -> option CategoryDoc -> Async R) w :
  getCategory categoryTitle callback w
  = if nth 0 (faults w) false
    then callback (Some StoreFailure) None
                  (advance (Category_findOne categoryTitle) (store w) w)
    else callback None
           (populate_freelancers (q_and [q_busy false; q_bio_exists; q_hourly_rate_exists])
                                 name_desc (store w)
            <$> List.find (fun c => String.eqb (title c) categoryTitle)
                          (db_categories (store w)))
           (advance (Category_findOne categoryTitle) (store w) w).
Proof.
  unfold getCategory. erewrite bind_eq by apply roundtrip_read.
  destruct (nth 0 (faults w) false); reflexivity.
Qed.

Lemma getCategories_run {R}
    (callback : option error -> option (list CategoryDoc) -> Async R) w :
  getCategories callback w
  = if nth 0 (faults w) false
    then callback (Some StoreFailure) None (advance Category_find (store w) w)
    else callback None
           (Some (populate_freelancers
                    (q_and [q_busy false; q_bio_exists; q_hourly_rate_exists])
                    name_desc (store w)
                  <$> merge_sort title_asc (db_categories (store w))))
           (advance Category_find (store w) w).
Proof.
  unfold getCategories. erewrite bind_eq by apply roundtrip_read.
  destruct (nth 0 (faults w) false); reflexivity.
Qed.

Lemma freelancersForJobId_run_any {R} jobId
    (callback : option (list UserRec) -> Async R) w :
  freelancersForJobId jobId callback w
  = if nth 0 (faults w) false
    then (NeverCalled, advance (Job_findById jobId) (store w) w)
    else match find_by_id jobId (db_jobs (store w)) with
         | Some job =>
             freelancersForJob job (fun users => callback (Some users))
                               (advance (Job_findById jobId) (store w) w)
         | None => callback None (advance (Job_findById jobId) (store w) w)
         end.
Proof.
  unfold freelancersForJobId, findJobById, Job_findById_exec.
  erewrite bind_eq by apply roundtrip_read.
  destruct (nth 0 (faults w) false); [reflexivity|].
  destruct (find_by_id jobId (db_jobs (store w))); reflexivity.
Qed.

(** X11.  The lookups of the module never write: whatever the store
    answers, [findUserById], [getCategory], [getCategories],
    [freelancersForJob] and [freelancersForJobId] leave the three
    collections as they found them. *)
Theorem lookups_never_write oid categoryTitle job jobId (w : World) :
  store (snd (findUserById oid report1 w)) = store w
  /\ store (snd (getCategory categoryTitle report2 w)) = store w
  /\ store (snd (getCategories report2 w)) = store w
  /\ store (snd (freelancersForJob job report1 w)) = store w
  /\ store (snd (freelancersForJobId jobId report1 w)) = store w.
Proof.
  split; [|split; [|split; [|split]]].
  - rewrite findUserById_run. destruct (nth 0 (faults w) false); reflexivity.
  - rewrite getCategory_run. destruct (nth 0 (faults w) false); reflexivity.
  - rewrite getCategories_run. destruct (nth 0 (faults w) false); reflexivity.
  - rewrite freelancersForJob_run. destruct (nth 0 (faults w) false); reflexivity.
  - rewrite freelancersForJobId_run_any.
    destruct (nth 0 (faults w) false); [reflexivity|].
    destruct (find_by_id jobId (db_jobs (store w))) as [j|]; [|reflexivity].
    rewrite freelancersForJob_run.
    match goal with |- context [if ?b then _ else _] => destruct b end; reflexivity.
Qed.

(** X12.  [getCategory] and [getCategories] pass an error of the store on
    to the callback, with no category; for a title that no category has,
    [getCategory] calls back with no error and null. *)
Theorem category_queries_report categoryTitle (w : World) :
  (nth 0 (faults w) false = true ->
   (forall R (callback : option error -> option CategoryDoc -> Async R),
       getCategory categoryTitle callback w
       = callback (Some StoreFailure) None
                  (advance (Category_findOne categoryTitle) (store w) w))
   /\ (forall R (callback : option error -> option (list CategoryDoc) -> Async R),
         getCategories callback w
         = callback (Some StoreFailure) None (advance Category_find (store w) w)))
  /\ (succeeds 0 w ->
      List.find (fun c => String.eqb (title c) categoryTitle) (db_categories (store w))
      = None ->
      forall R (callback : option error -> option CategoryDoc -> Async R),
        getCategory categoryTitle callback w
        = callback None None (advance (Category_findOne categoryTitle) (store w) w)).
Proof.
  split.
  - intros F0. split; intros R callback.
    + rewrite getCategory_run. now rewrite F0.
    + rewrite getCategories_run. now rewrite F0.
  - intros H0 Hnone R callback. rewrite getCategory_run.
    unfold succeeds in H0. now rewrite H0, Hnone.
Qed.

Lemma category_queries_report_witness :
  ((forall R (callback : option error -> option CategoryDoc -> Async R),
       getCategory "Web" callback (world_of store0 [true])
       = callback (Some StoreFailure) None
                  (advance (Category_findOne "Web") store0 (world_of store0 [true])))
   /\ (forall R (callback : option error -> option (list CategoryDoc) -> Async R),
         getCategories callback (world_of store0 [true])
         = callback (Some StoreFailure) None
                    (advance Category_find store0 (world_of store0 [true]))))
  /\ (forall R (callback : option error -> option CategoryDoc -> Async R),
        getCategory "Law" callback (world_of store0 [])
        = callback None None (advance (Category_findOne "Law") store0 (world_of store0 []))).
Proof.
  split.
  - apply (proj1 (category_queries_report "Web" (world_of store0 [true]))). reflexivity.
  - apply (proj2 (category_queries_report "Law" (world_of store0 []))); reflexivity.
Defined.

(** ** The two ways to ask who works in a category *)

(** X13.  [freelancersForJob] reads the users' [categories],
    [getCategory] the category's [freelancers].  When the two sides agree
    for a category, a job of that category that excludes nobody is matched
    with the same users that [getCategory] lists for it, up to order. *)
Theorem job_matching_agrees_with_category_listing (c : CategoryRec) (job : Job) (w : World) :
  succeeds 0 w ->
  List.find (fun c' => String.eqb (title c') (title c)) (db_categories (store w)) = Some c ->
  symmetric_for c (store w) ->
  category job = _id c ->
  notInterestedCandidates job = [] ->
  exists (users : list UserRec) (cd : CategoryDoc),
    (forall R (callback : list UserRec -> Async R),
        freelancersForJob job callback w
        = callback users (advance (User_find job) (store w) w))
    /\ (forall R (callback : option error -> option CategoryDoc -> Async R),
          getCategory (title c) callback w
          = callback None (Some cd) (advance (Category_findOne (title c)) (store w) w))
    /\ Permutation users (freelancers cd).
Proof.
  intros H0 Hc Hsym Hcat Hnin. unfold succeeds in H0.
  eexists _, _. split; [|split].
  - intros R callback. rewrite freelancersForJob_run, H0. reflexivity.
  - intros R callback. rewrite getCategory_run, H0, Hc. reflexivity.
  - simpl. rewrite merge_sort_Permutation.
    erewrite filter_ext_in; [reflexivity|].
    intros u Hu. rewrite Hcat, Hnin.
    unfold q_and, q_categories, q_id_nin. simpl. rewrite !andb_true_r.
    f_equal. specialize (Hsym u Hu).
    destruct (oid_in (_id u) (freelancers c)) eqn:E1, (oid_in (_id c) (categories u)) eqn:E2;
      try reflexivity; exfalso.
    + apply oid_in_In in E1. apply oid_in_false in E2. tauto.
    + apply oid_in_false in E1. apply oid_in_In in E2. tauto.
Qed.

Lemma job_matching_agrees_with_category_listing_witness :
  exists (users : list UserRec) (cd : CategoryDoc),
    (forall R (callback : list UserRec -> Async R),
        freelancersForJob job2 callback (world_of store0 [])
        = callback users (advance (User_find job2) store0 (world_of store0 [])))
    /\ (forall R (callback : option error -> option CategoryDoc -> Async R),
          getCategory (title cat_web) callback (world_of store0 [])
          = callback None (Some cd)
              (advance (Category_findOne (title cat_web)) store0 (world_of store0 [])))
    /\ Permutation users (freelancers cd).
Proof.
  apply (job_matching_agrees_with_category_listing cat_web job2 (world_of store0 []));
    try reflexivity.
  intros u Hu. simpl in Hu.
  destruct Hu as [<-|[<-|[<-|[<-|[]]]]]; simpl; split; intros _; auto.
Defined.

(** ** Toggle, then match *)

(** The user document that an undisturbed toggle hands to the callback is
    the loaded one but for [categories]. *)
Lemma toggle_doc_frame chatId cid0 w u c d added w' :
  faults w = [] ->
  the_user chatId (store w) = Some u ->
  the_category cid0 (store w) = Some c ->
  toggleCategoryForUser chatId cid0 report3 w = (Returned (None, Some d, added), w') ->
  d = set_categories (categories d) (populate_user (store w) u).
Proof.
  intros Hf Hu Hc Hrun.
  rewrite toggleCategoryForUser_run in Hrun by (now apply succeeds_nil).
  cbv zeta in Hrun. rewrite Hc, Hu in Hrun.
  cbn [fmap option_fmap option_map] in Hrun.
  rewrite findCategoryCallback_run in Hrun.
  pose proof (toggle_membership_frame c (populate_user (store w) u)) as Hfr.
  destruct (toggle_membership c (populate_user (store w) u)) as [[u' c'] index].
  destruct Hfr as [Hfu _]. cbv zeta in Hrun.
  repeat rewrite nth_faults_advance in Hrun. rewrite Hf in Hrun.
  simpl nth in Hrun. cbv iota in Hrun.
  unfold report3, ret in Hrun. injection Hrun as Hd _ _. now subst d.
Qed.

(** X14.  After an undisturbed toggle has added a user to a category, a
    job of that category is matched with the user if and only if the user
    is available and not among the job's not-interested candidates. *)
Theorem toggle_then_freelancersForJob chatId cid0 w u c (job : Job) :
  faults w = [] ->
  the_user chatId (store w) = Some u ->
  the_category cid0 (store w) = Some c ->
  ~ In cid0 (categories u) ->
  category job = cid0 ->
  exists (d : UserDoc) (w' : World) (u1 : UserRec) (users : list UserRec),
    (forall R (callback : option error -> option UserDoc -> bool -> Async R),
        toggleCategoryForUser chatId cid0 callback w = callback None (Some d) true w')
    /\ the_user chatId (store w') = Some u1
    /\ (forall R (callback : list UserRec -> Async R),
          freelancersForJob job callback w'
          = callback users (advance (User_find job) (store w') w'))
    /\ (In u1 users <-> available u /\ ~ In (_id u) (notInterestedCandidates job)).
Proof.
  intros Hf Hu Hc Hnin Hjob.
  destruct (toggle_step chatId cid0 w u c Hf Hu Hc)
    as (d & c' & w' & Hrun & Hf' & Hu' & _ & Hid & Hcats & _).
  apply oid_in_false in Hnin. rewrite Hnin in Hrun, Hcats. simpl negb in Hrun.
  pose proof (toggle_doc_frame chatId cid0 w u c d true w' Hf Hu Hc (Hrun _ report3)) as Hd.
  exists d, w', (depopulate_user d). eexists. split; [exact Hrun|]. split; [exact Hu'|].
  split.
  - intros R callback. rewrite freelancersForJob_run, Hf'. reflexivity.
  - rewrite filter_In, q_job, Hjob, Hcats.
    assert (available (depopulate_user d) <-> available u) as ->.
    { rewrite Hd. unfold available. simpl. reflexivity. }
    change (_id (depopulate_user d)) with (_id d). rewrite Hid.
    split; [tauto|]. intros [Ha Hn]. split; [|split; [|tauto]].
    + unfold the_user in Hu'. now apply find_some in Hu' as [Hin _].
    + apply in_or_app. right. now left.
Qed.

Lemma toggle_then_freelancersForJob_witness :
  exists (d : UserDoc) (w' : World) (u1 : UserRec) (users : list UserRec),
    (forall R (callback : option error -> option UserDoc -> bool -> Async R),
        toggleCategoryForUser 101 "c2" callback (world_of store0 [])
        = callback None (Some d) true w')
    /\ the_user 101 (store w') = Some u1
    /\ (forall R (callback : list UserRec -> Async R),
          freelancersForJob (mkJob "j3" "c2" []) callback w'
          = callback users (advance (User_find (mkJob "j3" "c2" [])) (store w') w'))
    /\ (In u1 users <->
        available amy /\ ~ In (_id amy) (notInterestedCandidates (mkJob "j3" "c2" []))).
Proof.
  apply (toggle_then_freelancersForJob 101 "c2" (world_of store0 []) amy cat_art
           (mkJob "j3" "c2" [])); try reflexivity.
  simpl. intros [H|[]]. discriminate H.
Defined.

(** X15.  Errors of the store in [freelancersForJobId]: when the lookup of
    the job fails, no query for users is made and the callback is never
    called; when the job is found and the query for users fails, the error
    is written to the console and the callback is never called. *)
Theorem freelancersForJobId_store_errors jobId (w : World) :
  (nth 0 (faults w) false = true ->
   forall R (callback : option (list UserRec) -> Async R),
     freelancersForJobId jobId callback w
     = (NeverCalled, advance (Job_findById jobId) (store w) w))
  /\ (forall job, succeeds 0 w -> nth 1 (faults w) false = true ->
      find_by_id jobId (db_jobs (store w)) = Some job ->
      forall R (callback : option (list UserRec) -> Async R),
        freelancersForJobId jobId callback w
        = (NeverCalled,
           logged (console_log_error (Rethrown StoreFailure))
             (advance (User_find job) (store w)
                (advance (Job_findById jobId) (store w) w)))).
Proof.
  split.
  - intros F0 R callback. rewrite freelancersForJobId_run_any. now rewrite F0.
  - intros job H0 F1 Hj R callback. rewrite freelancersForJobId_run_any.
    unfold succeeds in H0. rewrite H0, Hj, freelancersForJob_run.
    now rewrite nth_faults_advance, F1.
Qed.

Lemma freelancersForJobId_store_errors_witness :
  (forall R (callback : option (list UserRec) -> Async R),
      freelancersForJobId "j1" callback (world_of store0 [true])
      = (NeverCalled, advance (Job_findById "j1") store0 (world_of store0 [true])))
  /\ (forall R (callback : option (list UserRec) -> Async R),
        freelancersForJobId "j1" callback (world_of store0 [false; true])
        = (NeverCalled,
           logged (console_log_error (Rethrown StoreFailure))
             (advance (User_find job1) store0
                (advance (Job_findById "j1") store0 (world_of store0 [false; true]))))).
Proof.
  split.
  - apply (proj1 (freelancersForJobId_store_errors "j1" (world_of store0 [true]))).
    reflexivity.
  - apply (proj2 (freelancersForJobId_store_errors "j1" (world_of store0 [false; true]))
             job1); reflexivity.
Defined.

(** ** Reviews *)

Lemma addReview_run {R} (review : ReviewTemplate) (callback : Review -> RAsync R) rw :
  addReview review callback rw
  = let w := base rw in
    let d := new_Review (new_oid w (oid_count w)) review in
    let w' := mkWorld (store w) (tail (faults w)) (new_oid w) (S (oid_count w)) (trace w) in
    if nth 0 (faults w) false then (NeverCalled, mkRWorld w' (db_reviews rw))
    else match find_by_id (_id d) (db_reviews rw) with
         | Some _ => (NeverCalled, mkRWorld w' (db_reviews rw))
         | None => callback d (mkRWorld w' (db_reviews rw ++ [d]))
         end.
Proof.
  destruct rw as [[s fs g n t] rs]. unfold addReview, lift, fresh_oid, fault. cbn.
  destruct fs as [|[] fs]; cbn; try reflexivity;
    destruct (find_by_id (g n) rs); reflexivity.
Qed.

Lemma findReviewById_run {R} oid (callback : option Review -> RAsync R) rw :
  findReviewById oid callback rw
  = let w := base rw in
    let w' := mkWorld (store w) (tail (faults w)) (new_oid w) (oid_count w) (trace w) in
    if nth 0 (faults w) false then (NeverCalled, mkRWorld w' (db_reviews rw))
    else callback (find_by_id oid (db_reviews rw)) (mkRWorld w' (db_reviews rw)).
Proof.
  destruct rw as [[s fs g n t] rs]. unfold findReviewById, lift, fault. cbn.
  destruct fs as [|[] fs]; reflexivity.
Qed.

(** X16.  A review created by an undisturbed [addReview] (its identifier
    being free) is handed to the callback, is the last stored review, and
    is found again by [findReviewById] under its [_id]; users, categories
    and jobs are untouched. *)
Theorem addReview_then_findReviewById (review : ReviewTemplate) (rw : RWorld) :
  faults (base rw) = [] ->
  find_by_id (new_oid (base rw) (oid_count (base rw))) (db_reviews rw) = None ->
  exists (d : Review) (rw1 : RWorld),
    (forall R (callback : Review -> RAsync R), addReview review callback rw = callback d rw1)
    /\ d = new_Review (new_oid (base rw) (oid_count (base rw))) review
    /\ db_reviews rw1 = (db_reviews rw ++ [d])%list
    /\ store (base rw1) = store (base rw)
    /\ (forall R (callback : option Review -> RAsync R),
          exists rw2,
            findReviewById (_id d) callback rw1 = callback (Some d) rw2
            /\ db_reviews rw2 = db_reviews rw1).
Proof.
  intros Hf Hfresh.
  exists (new_Review (new_oid (base rw) (oid_count (base rw))) review),
    (mkRWorld
       (mkWorld (store (base rw)) (tail (faults (base rw))) (new_oid (base rw))
                (S (oid_count (base rw))) (trace (base rw)))
       (db_reviews rw ++ [new_Review (new_oid (base rw) (oid_count (base rw))) review])).
  split; [|split; [reflexivity|split; [reflexivity|split; [reflexivity|]]]].
  - intros R callback. rewrite addReview_run. cbv zeta.
    rewrite Hf. simpl nth. cbv iota.
    change (_id (new_Review (new_oid (base rw) (oid_count (base rw))) review))
      with (new_oid (base rw) (oid_count (base rw))).
    rewrite Hfresh. reflexivity.
  - intros R callback. rewrite findReviewById_run. cbv zeta.
    cbn [base faults db_reviews]. rewrite Hf. simpl nth. cbv iota.
    set (d := new_Review (new_oid (base rw) (oid_count (base rw))) review).
    assert (find_by_id (_id d) (db_reviews rw ++ [d]) = Some d) as ->.
    { apply find_app_None; [exact Hfresh | apply oid_eqb_refl]. }
    eexists. split; reflexivity.
Qed.

Lemma addReview_then_findReviewById_witness :
  exists (d : Review) (rw1 : RWorld),
    (forall R (callback : Review -> RAsync R),
        addReview praise callback (mkRWorld (world_of store0 []) []) = callback d rw1)
    /\ d = new_Review "n" praise
    /\ db_reviews rw1 = ([] ++ [d])%list
    /\ store (base rw1) = store0
    /\ (forall R (callback : option Review -> RAsync R),
          exists rw2,
            findReviewById (_id d) callback rw1 = callback (Some d) rw2
            /\ db_reviews rw2 = db_reviews rw1).
Proof.
  apply (addReview_then_findReviewById praise (mkRWorld (world_of store0 []) []));
    reflexivity.
Defined.




(** X18.  When the save of [addReview] fails, nothing is stored and the
    callback is never called; [findReviewById] never changes the reviews,
    calls back with null for an identifier that no review has, and never
    calls back when the store fails. *)
Theorem review_errors (review : ReviewTemplate) oid (rw : RWorld) :
  (nth 0 (faults (base rw)) false = true ->
   fst (addReview review rreport rw) = NeverCalled
   /\ db_reviews (snd (addReview review rreport rw)) = db_reviews rw
   /\ fst (findReviewById oid rreport rw) = NeverCalled)
  /\ (succeeds 0 (base rw) -> find_by_id oid (db_reviews rw) = None ->
      fst (findReviewById oid rreport rw) = Returned None)
  /\ db_reviews (snd (findReviewById oid rreport rw)) = db_reviews rw.
Proof.
  split; [|split].
  - intros F0. rewrite addReview_run, findReviewById_run. cbv zeta. rewrite F0.
    repeat split.
  - intros H0 Hnone. rewrite findReviewById_run. cbv zeta.
    unfold succeeds in H0. rewrite H0, Hnone. reflexivity.
  - rewrite findReviewById_run. cbv zeta.
    destruct (nth 0 (faults (base rw)) false); reflexivity.
Qed.

Lemma review_errors_witness :
  (fst (addReview praise rreport (mkRWorld (world_of store0 [true]) [])) = NeverCalled
   /\ db_reviews (snd (addReview praise rreport (mkRWorld (world_of store0 [true]) []))) = []
   /\ fst (findReviewById "r1" rreport (mkRWorld (world_of store0 [true]) [])) = NeverCalled)
  /\ fst (findReviewById "r1" rreport (mkRWorld (world_of store0 []) [])) = Returned None.
Proof.
  split.
  - apply (proj1 (review_errors praise "r1" (mkRWorld (world_of store0 [true]) []))).
    reflexivity.
  - apply (proj1 (proj2 (review_errors praise "r1" (mkRWorld (world_of store0 []) []))));
      reflexivity.
Defined.

(** ** The toggle keeps the two sides in step *)

Lemma In_update_by_id {D} `{Document D} (d x : D) (l : list D) :
  NoDup (_id <$> l) ->
  In x (update_by_id d l) -> x = d \/ (In x l /\ _id x <> _id d).
Proof.
  induction l as [|y l IH]; simpl; [tauto|]. intros Hnd.
  apply NoDup_cons in Hnd as [Hy Hnd].
  destruct (oid_eqb (_id y) (_id d)) eqn:E.
  - apply oid_eqb_eq in E. intros [<-|Hx]; [now left|]. right. split; [now right|].
    intros Hid. apply Hy. rewrite E, <- Hid. apply list_elem_of_In, in_map, Hx.
  - intros [<-|Hx].
    + right. split; [now left|]. intros Hid. rewrite Hid, oid_eqb_refl in E. discriminate.
    + destruct (IH Hnd Hx) as [->|[Hin Hne]]; [now left | right; split; [now right | exact Hne]].
Qed.

Lemma find_by_id_member {D} `{Document D} (d : D) (l : list D) :
  In d l -> is_Some (find_by_id (_id d) l).
Proof.
  unfold find_by_id. induction l as [|y l IH]; simpl; [tauto|].
  destruct (oid_eqb (_id y) (_id d)) eqn:E; [eauto|].
  intros [->|Hd]; [|now apply IH]. rewrite oid_eqb_refl in E. discriminate.
Qed.

Lemma In_live {D} `{Document D} (coll : list D) x refs :
  In x (live coll refs) <-> In x refs /\ is_Some (find_by_id x coll).
Proof. unfold live. rewrite filter_In, bool_decide_eq_true. reflexivity. Qed.

Lemma In_remove_first_other x y l :
  x <> y -> (In x (remove_first (oid_eqb y) l) <-> In x l).
Proof.
  intros Hne. induction l as [|z l IH]; simpl; [tauto|].
  destruct (oid_eqb y z) eqn:E; simpl.
  - apply oid_eqb_eq in E. subst z. split; [now right|]. intros [Hz|Hz]; [congruence|exact Hz].
  - rewrite IH. tauto.
Qed.

Lemma In_snoc_other (x y : ObjectId) l : x <> y -> (In x (l ++ [y]) <-> In x l).
Proof.
  intros Hne. rewrite in_app_iff. simpl. split; [|tauto].
  intros [Hx|[Hx|[]]]; [exact Hx | congruence].
Qed.

(** X19.  The invariant of the data model.  In a store where identifiers
    are unique and the two sides agree for every stored user and category,
    an undisturbed toggle for a pair with at most one entry on each side
    leaves the two sides in agreement for every stored user and
    category. *)
Theorem toggle_preserves_symmetry chatId cid0 w u c :
  faults w = [] ->
  the_user chatId (store w) = Some u ->
  the_category cid0 (store w) = Some c ->
  NoDup (_id <$> db_users (store w)) ->
  NoDup (_id <$> db_categories (store w)) ->
  (occ cid0 (categories u) <= 1)%nat ->
  (occ (_id u) (freelancers c) <= 1)%nat ->
  symmetric (store w) ->
  exists (d : UserDoc) (added : bool) (w' : World),
    (forall R (callback : option error -> option UserDoc -> bool -> Async R),
        toggleCategoryForUser chatId cid0 callback w = callback None (Some d) added w')
    /\ symmetric (store w').
Proof.
  intros Hf Hu Hc HndU HndC HoU HoC Hsym.
  destruct (toggle_step chatId cid0 w u c Hf Hu Hc)
    as (u' & c' & w' & Hrun & _ & _ & _ & Hid & Hcats & Hc' & Hdbc & Hdbu).
  exists u', (negb (oid_in cid0 (categories u))), w'. split; [exact Hrun|].
  pose proof (find_by_id_id _ _ _ Hc) as Hcid.
  pose proof (find_by_id_In _ _ _ Hc) as HcIn.
  assert (In u (db_users (store w))) as HuIn.
  { unfold the_user in Hu. now apply find_some in Hu as [? _]. }
  assert (is_Some (find_by_id cid0 (db_categories (store w)))) as Hres.
  { unfold the_category in Hc. rewrite Hc. eauto. }
  assert (_id c' = cid0) as Hidc by (rewrite Hc'; exact Hcid).
  assert (Hside : forall x, x <> _id u -> (In x (freelancers c') <-> In x (freelancers c))).
  { intros x Hx. rewrite Hc'. simpl. destruct (oid_in cid0 (categories u)).
    - now apply In_remove_first_other.
    - now apply In_snoc_other. }
  assert (Hmine : forall c2 : CategoryRec,
             In c2 (db_categories (store w)) -> _id c2 <> cid0 ->
             (In (_id c2) (categories (depopulate_user u')) <-> In (_id c2) (categories u))).
  { intros c2 Hc2 Hne. rewrite Hcats. destruct (oid_in cid0 (categories u)).
    - rewrite In_remove_first_other by exact Hne. rewrite In_live.
      pose proof (find_by_id_member c2 _ Hc2). tauto.
    - rewrite In_snoc_other by exact Hne. rewrite In_live.
      pose proof (find_by_id_member c2 _ Hc2). tauto. }
  intros c2 Hc2 u2 Hu2. rewrite Hdbc in Hc2. rewrite Hdbu in Hu2.
  apply (In_update_by_id _ _ _ HndC) in Hc2. apply (In_update_by_id _ _ _ HndU) in Hu2.
  change (_id (depopulate_user u')) with (_id u') in Hu2. rewrite Hid in Hu2.
  rewrite Hidc in Hc2.
  destruct Hu2 as [->|[Hu2 Hneu]]; destruct Hc2 as [->|[Hc2 Hnec]].
  - change (_id (depopulate_user u')) with (_id u'). rewrite Hid, Hidc, Hcats, Hc'. simpl.
    destruct (oid_in cid0 (categories u)) eqn:E.
    + split; intros Hin; exfalso.
      * apply occ_In in Hin. rewrite occ_remove_first, occ_live in Hin by assumption. lia.
      * apply occ_In in Hin. rewrite occ_remove_first in Hin. lia.
    + split; intros _; apply in_or_app; right; now left.
  - change (_id (depopulate_user u')) with (_id u'). rewrite Hid.
    rewrite (Hmine c2 Hc2 Hnec). exact (Hsym c2 Hc2 u HuIn).
  - rewrite Hidc, (Hside (_id u2) Hneu), <- Hcid. exact (Hsym c HcIn u2 Hu2).
  - exact (Hsym c2 Hc2 u2 Hu2).
Qed.

Lemma toggle_preserves_symmetry_witness :
  exists (d : UserDoc) (added : bool) (w' : World),
    (forall R (callback : option error -> option UserDoc -> bool -> Async R),
        toggleCategoryForUser 101 "c1" callback (world_of store0 [])
        = callback None (Some d) added w')
    /\ symmetric (store w').
Proof.
  apply (toggle_preserves_symmetry 101 "c1" (world_of store0 []) amy cat_web).
  - reflexivity.
  - reflexivity.
  - reflexivity.
  - apply (bool_decide_unpack _). vm_compute. exact I.
  - apply (bool_decide_unpack _). vm_compute. exact I.
  - vm_compute. lia.
  - vm_compute. lia.
  - intros c Hc u Hu. simpl in Hc, Hu.
    destruct Hc as [<-|[<-|[]]]; destruct Hu as [<-|[<-|[<-|[<-|[]]]]]; simpl;
      split; intros H; repeat (destruct H as [H|H]; try discriminate H); auto 10.
Defined.
